(** * Kinect point cloud add-on: a shallow embedding of [client.py] and [server.py]

    The capture client frames every depth grid as a length-prefixed,
    compressed byte string; the add-on's worker thread decodes the stream
    and leaves the newest grid in a queue; a timer callback on the main
    thread turns that grid into vertices.  Python values are embedded as
    follows.

    - [bytes] / [bytearray]: [list byte];  [str]: [string] (ASCII).
    - [numpy.uint16] cells: [Z] in [0, 65536);  [numpy.float32] and Python
      [float]: [spec_float], rounded with precision 24 / 53.
    - [queue.Queue]: a list, oldest element first;  [deque(maxlen=10)]: a
      list, oldest entry first.
    - exceptions: a [result] type;  module globals and the host state the
      code touches: one record, passed explicitly.
    - a connected socket: the segments still to be delivered by the peer. *)

From Stdlib Require Import ZArith String Ascii Bool Lia QArith Qabs List.
From Stdlib.Strings Require Import Byte.
From Stdlib Require Import SpecFloat.
Import ListNotations.
Open Scope Z_scope.

Set Implicit Arguments.

(** ** Exceptions *)

(** The exceptions that the modelled paths can raise.  The payload is what
    the code or the raising library knows about the failure. *)
Inductive exn : Type :=
| socket_timeout                       (* s.accept() after 1.0 s *)
| OSError (what : string)              (* any other socket failure *)
| zlib_error (what : string)           (* zlib.decompress *)
| ValueError_buffer (size : nat)       (* np.frombuffer: odd byte count *)
| ValueError_reshape (size : nat)      (* reshape((480, 640)) *)
| AttributeError (attr : string)       (* scene property not registered *)
| TypeError (what : string)            (* an operand of the wrong type *)
| struct_error                         (* struct.pack('!I', n), n out of range *)
| queue_Empty.                         (* frame_queue.get_nowait() *)

Inductive result (A : Type) : Type :=
| Ok (a : A)
| Raise (e : exn).

Arguments Ok {A} a.
Arguments Raise {A} e.

Definition bind {A B : Type} (r : result A) (k : A -> result B) : result B :=
  match r with
  | Ok a => k a
  | Raise e => Raise e
  end.

Notation "x <- r ;; k" := (bind r (fun x => k))
  (at level 61, r at next level, right associativity).

(** ** Floating point *)

(** Python's [float] is IEEE binary64.  A decimal literal [m / 10^k] is read
    as the correctly rounded quotient, which the division of the two exactly
    representable integers computes. *)
Module F64.
Definition prec : Z := 53.
Definition emax : Z := 1024.
Definition of_Z (z : Z) : spec_float := binary_normalize prec emax z 0 false.
Definition add := SFadd prec emax.
Definition sub := SFsub prec emax.
Definition mul := SFmul prec emax.
Definition div := SFdiv prec emax.
Definition neg := SFopp.
Definition leb := SFleb.
Definition literal (m : Z) (k : Z) : spec_float := div (of_Z m) (of_Z (10 ^ k)).
End F64.

(** [numpy.float32] is IEEE binary32.  A Python scalar that meets a float32
    array is cast to float32 first, and the operation is rounded once. *)
Module F32.
Definition prec : Z := 24.
Definition emax : Z := 128.
Definition of_Z (z : Z) : spec_float := binary_normalize prec emax z 0 false.
Definition of_f64 (x : spec_float) : spec_float :=
  match x with
  | S754_finite s m e => binary_round prec emax s m e
  | _ => x
  end.
Definition add := SFadd prec emax.
Definition sub := SFsub prec emax.
Definition mul := SFmul prec emax.
Definition div := SFdiv prec emax.
Definition neg := SFopp.
End F32.

(** The rational value of a finite float; [None] for infinities and NaN. *)
Definition float_value (x : spec_float) : option Q :=
  match x with
  | S754_zero _ => Some 0%Q
  | S754_finite s m e =>
      let mag := if 0 <=? e then inject_Z (Z.pos m * 2 ^ e)
                 else Qmake (Z.pos m) (Z.to_pos (2 ^ (- e))) in
      Some (if s then Qopp mag else mag)
  | _ => None
  end.

(** ** Strings: [str.strip] *)

(** The white space of [str.strip] among the ASCII characters: TAB, LF, VT,
    FF, CR, FS, GS, RS, US, SPACE.  (Beyond ASCII, Python also strips
    U+0085, U+00A0 and the other Unicode spaces; strings are ASCII here.) *)
Definition is_space (c : ascii) : bool :=
  let n := N_of_ascii c in
  ((9 <=? n) && (n <=? 13) || (28 <=? n) && (n <=? 32))%N.

Fixpoint lstrip (s : string) : string :=
  match s with
  | EmptyString => EmptyString
  | String c t => if is_space c then lstrip t else s
  end.

Fixpoint rstrip (s : string) : string :=
  match s with
  | EmptyString => EmptyString
  | String c t =>
      match rstrip t with
      | EmptyString => if is_space c then EmptyString else String c EmptyString
      | t' => String c t'
      end
  end.

Definition strip (s : string) : string := rstrip (lstrip s).

(** ** Logging: [log_messages = deque(maxlen=10)] and [add_log] *)

(** [deque.append] with a bound: the new item goes to the right end and, when
    the bound is exceeded, the leftmost item is dropped. *)
Definition deque_append {A : Type} (maxlen : nat) (d : list A) (x : A) : list A :=
  let d' := d ++ [x] in
  if (maxlen <? length d')%nat then tl d' else d'.

Definition log_maxlen : nat := 10.

(** [entry = f"[{timestamp}] {msg}"]. *)
Definition log_entry (timestamp msg : string) : string :=
  ("[" ++ timestamp ++ "] " ++ msg)%string.

(** [add_log(msg)], with the reading of [time.strftime("%H:%M:%S")] passed
    in.  The lock only serialises the append. *)
Definition add_log (timestamp msg : string) (log_messages : list string) : list string :=
  deque_append log_maxlen log_messages (strip (log_entry timestamp msg)).

(** Adding a sequence of (timestamp, message) pairs, first pair first. *)
Definition add_logs (msgs : list (string * string)) (log_messages : list string) : list string :=
  fold_left (fun lg tm => add_log (fst tm) (snd tm) lg) msgs log_messages.

(** ** The frame queue: [frame_queue = queue.Queue()] *)

Section Queue.
Variable A : Type.

Definition Queue := list A.

Definition empty (q : Queue) : bool :=
  match q with [] => true | _ => false end.

Definition put (q : Queue) (x : A) : Queue := q ++ [x].

Definition get_nowait (q : Queue) : result (A * Queue) :=
  match q with
  | [] => Raise queue_Empty
  | x :: q' => Ok (x, q')
  end.

(** [while not frame_queue.empty(): frame_queue.get_nowait()]: every pass
    removes the head, so the loop is a recursion on the queue. *)
Fixpoint drain (q : Queue) : Queue :=
  match q with
  | [] => q
  | _ :: q' => drain q'
  end.

(** Lines 256-262 of [server_run]: keep only the latest frame. *)
Definition publish (q : Queue) (depth_map : A) : Queue :=
  put (drain q) depth_map.
End Queue.


(** ** Bytes and arrays *)

Definition byte_of_Z (z : Z) : byte :=
  match Byte.of_N (Z.to_N (z mod 256)) with
  | Some b => b
  | None => x00
  end.

Definition Z_of_byte (b : byte) : Z := Z.of_N (Byte.to_N b).

(** [struct.pack('!I', n)]: four bytes, most significant first; values
    outside the unsigned 32-bit range are refused. *)
Definition struct_pack_I (n : Z) : result (list byte) :=
  if (0 <=? n) && (n <? 2 ^ 32)
  then Ok [byte_of_Z (n / 2 ^ 24); byte_of_Z (n / 2 ^ 16); byte_of_Z (n / 2 ^ 8); byte_of_Z n]
  else Raise struct_error.

(** [struct.unpack('!I', buf)[0]]; the buffer must hold exactly four bytes. *)
Definition struct_unpack_I (buf : list byte) : result Z :=
  match buf with
  | [b3; b2; b1; b0] =>
      Ok (Z_of_byte b3 * 2 ^ 24 + Z_of_byte b2 * 2 ^ 16 + Z_of_byte b1 * 2 ^ 8 + Z_of_byte b0)
  | _ => Raise struct_error
  end.

(** The byte order of the machine: [tobytes] and [frombuffer] both use the
    native order, and the socket is local to one machine. *)
Inductive byteorder : Type := little | big.

(** A two-dimensional [numpy] array of [uint16], row-major. *)
Record ndarray : Type := {
  shape : nat * nat;       (* (height, width) *)
  cells : list Z
}.

Definition FRAME_HEIGHT : nat := 480.
Definition FRAME_WIDTH : nat := 640.

Section NativeOrder.
Variable native : byteorder.

Definition uint16_bytes (v : Z) : list byte :=
  match native with
  | little => [byte_of_Z v; byte_of_Z (v / 256)]
  | big => [byte_of_Z (v / 256); byte_of_Z v]
  end.

Definition uint16_of_bytes (b0 b1 : byte) : Z :=
  match native with
  | little => Z_of_byte b0 + 256 * Z_of_byte b1
  | big => 256 * Z_of_byte b0 + Z_of_byte b1
  end.

(** [depth_map.tobytes()]. *)
Definition tobytes (a : ndarray) : list byte :=
  flat_map uint16_bytes (cells a).

Fixpoint uint16_items (buf : list byte) : list Z :=
  match buf with
  | b0 :: b1 :: rest => uint16_of_bytes b0 b1 :: uint16_items rest
  | _ => []
  end.

(** [np.frombuffer(buf, dtype=np.uint16)]: the byte count must be even. *)
Definition frombuffer (buf : list byte) : result (list Z) :=
  if Nat.even (length buf) then Ok (uint16_items buf)
  else Raise (ValueError_buffer (length buf)).

(** [.reshape((480, 640))]: the item count must be 480 * 640. *)
Definition reshape (items : list Z) : result ndarray :=
  if Z.of_nat (length items) =? Z.of_nat FRAME_HEIGHT * Z.of_nat FRAME_WIDTH
  then Ok {| shape := (FRAME_HEIGHT, FRAME_WIDTH); cells := items |}
  else Raise (ValueError_reshape (length items)).
End NativeOrder.

(** ** The socket seen from the server *)

(** A connected stream socket is the list of segments the peer's bytes will
    arrive in; when the list is used up the peer has closed.  Reads never
    time out: an accepted socket is blocking. *)
Definition Conn : Type := list (list byte).

(** [conn.recv(bufsize)]: at most [bufsize] bytes of the next segment that
    holds data, and [b''] only when the peer has closed. *)
Fixpoint recv (conn : Conn) (bufsize : nat) : list byte * Conn :=
  match conn with
  | [] => ([], [])
  | [] :: rest => recv rest bufsize
  | seg :: rest =>
      if (length seg <=? bufsize)%nat then (seg, rest)
      else (firstn bufsize seg, skipn bufsize seg :: rest)
  end.

(** The loop of [recvall].  Every pass that continues adds at least one byte,
    so [n - len(data)] passes are enough; [None] says that the bound given
    was too small. *)
Fixpoint recvall_loop (fuel : nat) (conn : Conn) (n : nat) (data : list byte)
  : option (option (list byte) * Conn) :=
  if (length data <? n)%nat then
    match fuel with
    | O => None
    | S fuel' =>
        let '(packet, conn') := recv conn (n - length data) in
        match packet with
        | [] => Some (None, conn')                        (* return None *)
        | _ => recvall_loop fuel' conn' n (data ++ packet)
        end
    end
  else Some (Some data, conn).                            (* return data *)

(** [recvall(conn, n)]. *)
Definition recvall (conn : Conn) (n : nat) : option (option (list byte) * Conn) :=
  recvall_loop n conn n [].

(** The bytes a connection still holds. *)
Definition pending (conn : Conn) : list byte := concat conn.


(** ** The capture client: one frame on the wire *)

Section Client.
Variable native : byteorder.
Variable compress : list byte -> list byte.          (* zlib.compress *)

(** Lines 61-65 of [main]:
    [data = zlib.compress(depth_map.tobytes())] and the argument of
    [s.sendall], [struct.pack('!I', len(data)) + data]. *)
Definition frame_message (depth_map : ndarray) : result (list byte) :=
  let data := compress (tobytes native depth_map) in
  header <- struct_pack_I (Z.of_nat (length data)) ;;
  Ok (header ++ data).
End Client.

(** ** Module globals and host state of the add-on *)

Definition vertex : Type := spec_float * spec_float * spec_float.

(** The scene properties of [register()]; [None] while a property is not
    registered on the scene type. *)
Record Scene : Type := {
  kinect_point_drop_amount : option Z;
  kinect_scale_factor_x : option spec_float;
  kinect_scale_factor_y : option spec_float;
  kinect_scale_factor_z : option spec_float;
  kinect_log_items : option (list string);
  kinect_log_active_index : option Z
}.

Record World : Type := {
  (* globals of server.py *)
  server_thread : option nat;          (* None, or the handle of a thread *)
  stop_event : bool;
  frame_queue : Queue ndarray;
  log_messages : list string;
  frame_count : Z;
  last_fps_time : spec_float;
  current_fps : spec_float;
  (* threads *)
  threads_started : nat;               (* handles given out so far *)
  alive_threads : list nat;            (* handles whose is_alive() holds *)
  (* bpy *)
  timer_registered : bool;             (* bpy.app.timers.is_registered(update_point_cloud) *)
  scene : option Scene;                (* bpy.context.scene, None when the context has none *)
  point_cloud : option (list vertex);  (* the mesh of "KinectPointCloud", None before creation *)
  (* clocks *)
  clock_hms : string;                  (* time.strftime("%H:%M:%S") *)
  clock_time : spec_float              (* time.time() *)
}.

Definition set_server_thread (v : option nat) (w : World) : World :=
  {| server_thread := v; stop_event := stop_event w; frame_queue := frame_queue w;
     log_messages := log_messages w; frame_count := frame_count w;
     last_fps_time := last_fps_time w; current_fps := current_fps w;
     threads_started := threads_started w; alive_threads := alive_threads w;
     timer_registered := timer_registered w; scene := scene w;
     point_cloud := point_cloud w; clock_hms := clock_hms w; clock_time := clock_time w |}.

Definition set_stop_event (v : bool) (w : World) : World :=
  {| server_thread := server_thread w; stop_event := v; frame_queue := frame_queue w;
     log_messages := log_messages w; frame_count := frame_count w;
     last_fps_time := last_fps_time w; current_fps := current_fps w;
     threads_started := threads_started w; alive_threads := alive_threads w;
     timer_registered := timer_registered w; scene := scene w;
     point_cloud := point_cloud w; clock_hms := clock_hms w; clock_time := clock_time w |}.

Definition set_frame_queue (v : Queue ndarray) (w : World) : World :=
  {| server_thread := server_thread w; stop_event := stop_event w; frame_queue := v;
     log_messages := log_messages w; frame_count := frame_count w;
     last_fps_time := last_fps_time w; current_fps := current_fps w;
     threads_started := threads_started w; alive_threads := alive_threads w;
     timer_registered := timer_registered w; scene := scene w;
     point_cloud := point_cloud w; clock_hms := clock_hms w; clock_time := clock_time w |}.

Definition set_log_messages (v : list string) (w : World) : World :=
  {| server_thread := server_thread w; stop_event := stop_event w; frame_queue := frame_queue w;
     log_messages := v; frame_count := frame_count w;
     last_fps_time := last_fps_time w; current_fps := current_fps w;
     threads_started := threads_started w; alive_threads := alive_threads w;
     timer_registered := timer_registered w; scene := scene w;
     point_cloud := point_cloud w; clock_hms := clock_hms w; clock_time := clock_time w |}.

Definition set_fps (count : Z) (last fps : spec_float) (w : World) : World :=
  {| server_thread := server_thread w; stop_event := stop_event w; frame_queue := frame_queue w;
     log_messages := log_messages w; frame_count := count;
     last_fps_time := last; current_fps := fps;
     threads_started := threads_started w; alive_threads := alive_threads w;
     timer_registered := timer_registered w; scene := scene w;
     point_cloud := point_cloud w; clock_hms := clock_hms w; clock_time := clock_time w |}.

Definition set_threads (started : nat) (alive : list nat) (w : World) : World :=
  {| server_thread := server_thread w; stop_event := stop_event w; frame_queue := frame_queue w;
     log_messages := log_messages w; frame_count := frame_count w;
     last_fps_time := last_fps_time w; current_fps := current_fps w;
     threads_started := started; alive_threads := alive;
     timer_registered := timer_registered w; scene := scene w;
     point_cloud := point_cloud w; clock_hms := clock_hms w; clock_time := clock_time w |}.

Definition set_timer_registered (v : bool) (w : World) : World :=
  {| server_thread := server_thread w; stop_event := stop_event w; frame_queue := frame_queue w;
     log_messages := log_messages w; frame_count := frame_count w;
     last_fps_time := last_fps_time w; current_fps := current_fps w;
     threads_started := threads_started w; alive_threads := alive_threads w;
     timer_registered := v; scene := scene w;
     point_cloud := point_cloud w; clock_hms := clock_hms w; clock_time := clock_time w |}.

Definition set_scene (v : option Scene) (w : World) : World :=
  {| server_thread := server_thread w; stop_event := stop_event w; frame_queue := frame_queue w;
     log_messages := log_messages w; frame_count := frame_count w;
     last_fps_time := last_fps_time w; current_fps := current_fps w;
     threads_started := threads_started w; alive_threads := alive_threads w;
     timer_registered := timer_registered w; scene := v;
     point_cloud := point_cloud w; clock_hms := clock_hms w; clock_time := clock_time w |}.

Definition set_point_cloud (v : option (list vertex)) (w : World) : World :=
  {| server_thread := server_thread w; stop_event := stop_event w; frame_queue := frame_queue w;
     log_messages := log_messages w; frame_count := frame_count w;
     last_fps_time := last_fps_time w; current_fps := current_fps w;
     threads_started := threads_started w; alive_threads := alive_threads w;
     timer_registered := timer_registered w; scene := scene w;
     point_cloud := v; clock_hms := clock_hms w; clock_time := clock_time w |}.

(** [add_log(msg)] on the globals, stamped with the current clock reading. *)
Definition do_add_log (msg : string) (w : World) : World :=
  set_log_messages (add_log (clock_hms w) msg (log_messages w)) w.

(** A scene before [register()] and the scene [register()] sets up, with the
    registered defaults 1, 0.5, 0.5 and 1.0. *)
Definition unregistered_scene : Scene :=
  {| kinect_point_drop_amount := None; kinect_scale_factor_x := None;
     kinect_scale_factor_y := None; kinect_scale_factor_z := None;
     kinect_log_items := None; kinect_log_active_index := None |}.

Definition registered_scene : Scene :=
  {| kinect_point_drop_amount := Some 1;
     kinect_scale_factor_x := Some (F64.literal 5 1);
     kinect_scale_factor_y := Some (F64.literal 5 1);
     kinect_scale_factor_z := Some (F64.of_Z 1);
     kinect_log_items := Some []; kinect_log_active_index := Some 0 |}.

(** The globals as the module body leaves them, lines 27-45, in a host
    with the given scene and clock readings. *)
Definition initial_world (scn : option Scene) (hms : string) (now : spec_float) : World :=
  {| server_thread := None; stop_event := false; frame_queue := [];
     log_messages := []; frame_count := 0;
     last_fps_time := now; current_fps := S754_zero false;
     threads_started := 0; alive_threads := [];
     timer_registered := false; scene := scn;
     point_cloud := None; clock_hms := hms; clock_time := now |}.


(** ** The socket server: [server_run] *)

(** What one pass over the body of the connection loop (lines 244-254)
    comes to. *)
Inductive frame_read : Type :=
| Stop_reading                                   (* break *)
| Failed (e : exn)                               (* an exception leaves the loop *)
| Frame (depth_map : ndarray) (conn' : Conn).    (* a decoded frame *)

Inductive loop_control : Type := Continue | Break.

Inductive run_state : Type :=
| Listening      (* the accept loop waits for the next outcome of s.accept() *)
| Ended.         (* the accept loop was left *)

Section Server.
Variable native : byteorder.
Variable decompress : list byte -> result (list byte).   (* zlib.decompress *)
Variable exn_text : exn -> string.                       (* str(e) *)
Variable socket_path : string.

(** Lines 253-254: [zlib.decompress], [np.frombuffer], [reshape]. *)
Definition decode_frame (compressed_data : list byte) : result ndarray :=
  decompressed_data <- decompress compressed_data ;;
  items <- frombuffer native decompressed_data ;;
  reshape items.

(** Lines 244-254. *)
Definition read_frame (conn : Conn) : option frame_read :=
  match recvall conn 4 with
  | None => None
  | Some (raw_data_size, conn1) =>
      match raw_data_size with
      | None | Some [] => Some Stop_reading              (* if not raw_data_size: break *)
      | Some raw =>
          match struct_unpack_I raw with
          | Raise e => Some (Failed e)
          | Ok data_size =>
              match recvall conn1 (Z.to_nat data_size) with
              | None => None
              | Some (compressed_data, conn2) =>
                  match compressed_data with
                  | None | Some [] => Some Stop_reading  (* if not compressed_data: break *)
                  | Some compressed =>
                      match decode_frame compressed with
                      | Raise e => Some (Failed e)
                      | Ok depth_map => Some (Frame depth_map conn2)
                      end
                  end
              end
          end
      end
  end.

(** The connection loop, lines 243-262.  [None] says that [fuel] passes
    were not enough. *)
Fixpoint connection_loop (fuel : nat) (conn : Conn) (w : World)
  : option (result unit * World) :=
  match fuel with
  | O => None
  | S fuel' =>
      if stop_event w then Some (Ok tt, w)
      else
        match read_frame conn with
        | None => None
        | Some Stop_reading => Some (Ok tt, w)
        | Some (Failed e) => Some (Raise e, w)
        | Some (Frame depth_map conn') =>
            connection_loop fuel' conn'
              (set_frame_queue (publish (frame_queue w) depth_map) w)
        end
  end.

(** Every pass that goes on takes at least five bytes off the connection. *)
Definition handle_connection (conn : Conn) (w : World) : option (result unit * World) :=
  connection_loop (S (length (pending conn))) conn w.

(** One pass over the [try] statement of the accept loop, lines 238-270,
    for a given outcome of [s.accept()]. *)
Definition accept_pass (accepted : result Conn) (w : World)
  : option (loop_control * World) :=
  let body :=
    match accepted with
    | Raise e => Some (Raise e, w)
    | Ok conn => handle_connection conn (do_add_log "Client connected" w)
    end in
  match body with
  | None => None
  | Some (r, w1) =>
      let '(control, w2) :=
        match r with
        | Ok _ => (Continue, w1)
        | Raise socket_timeout => (Continue, w1)         (* except socket.timeout: continue *)
        | Raise e =>                                     (* except Exception as e: ...; break *)
            (Break, do_add_log ("Server error: " ++ exn_text e) w1)
        end in
      Some (control, do_add_log "Client disconnected" w2)   (* finally *)
  end.

(** The accept loop, line 237, over the outcomes of the successive calls of
    [s.accept()]. *)
Fixpoint accept_loop (accepts : list (result Conn)) (w : World)
  : option (run_state * World) :=
  if stop_event w then Some (Ended, w)
  else
    match accepts with
    | [] => Some (Listening, w)
    | accepted :: rest =>
        match accept_pass accepted w with
        | None => None
        | Some (Break, w') => Some (Ended, w')
        | Some (Continue, w') => accept_loop rest w'
        end
    end.

(** [server_run]: the log lines around the accept loop.  The socket file,
    [sys.path] and [print] are left out. *)
Definition server_run (accepts : list (result Conn)) (w : World)
  : option (run_state * World) :=
  match accept_loop accepts (do_add_log ("Server listening on socket: " ++ socket_path) w) with
  | None => None
  | Some (Ended, w') => Some (Ended, do_add_log "Server has stopped." w')
  | Some (Listening, w') => Some (Listening, w')
  end.
End Server.


(** ** The point cloud renderer: [update_point_cloud] *)

(** [arr[mask]] for a boolean mask of the same length, in row-major order. *)
Fixpoint mask_select {A : Type} (mask : list bool) (arr : list A) : list A :=
  match mask, arr with
  | b :: mask', x :: arr' =>
      if b then x :: mask_select mask' arr' else mask_select mask' arr'
  | _, _ => []
  end.

(** [arr[::step]] for [step >= 1]: the items at 0, step, 2*step, ...;
    [skip] counts the items to pass over before the next one is taken. *)
Fixpoint every_nth_from {A : Type} (skip step : nat) (arr : list A) : list A :=
  match arr with
  | [] => []
  | x :: arr' =>
      match skip with
      | O => x :: every_nth_from (step - 1) step arr'
      | S skip' => every_nth_from skip' step arr'
      end
  end.

Definition slice_step {A : Type} (step : nat) (arr : list A) : list A :=
  every_nth_from 0 step arr.

(** Lines 159-162 for one of the three arrays. *)
Definition decimate {A : Type} (point_drop_amount : Z) (arr : list A) : list A :=
  if 1 <? point_drop_amount then slice_step (Z.to_nat point_drop_amount) arr else arr.

(** [np.indices((height, width), dtype=np.float32)], flattened: the row
    numbers and the column numbers of the cells. *)
Definition indices_y (height width : nat) : list spec_float :=
  flat_map (fun i => repeat (F32.of_Z (Z.of_nat i)) width) (seq 0 height).

Definition indices_x (height width : nat) : list spec_float :=
  flat_map (fun _ => map (fun j => F32.of_Z (Z.of_nat j)) (seq 0 width)) (seq 0 height).

(** [np.stack((a, b, c), axis=-1)] for three arrays of one length. *)
Fixpoint stack3 (a b c : list spec_float) : list vertex :=
  match a, b, c with
  | x :: a', y :: b', z :: c' => (x, y, z) :: stack3 a' b' c'
  | _, _, _ => []
  end.

(** The sentinel of line 147. *)
Definition INVALID_DEPTH : Z := 2047.

(** Line 166 for one item of [valid_depths]:
    [1.0 / (d * -0.0030711016 + 3.3309495161)] in float32. *)
Definition z_meters_of (d : spec_float) : spec_float :=
  F32.div (F32.of_f64 (F64.of_Z 1))
    (F32.add (F32.mul d (F32.of_f64 (F64.neg (F64.literal 30711016 10))))
             (F32.of_f64 (F64.literal 33309495161 10))).

Section Renderer.
Variable log1p : spec_float -> spec_float.           (* np.log1p on float32 *)

(** Lines 142-183 once the four settings are known: from the depth map to
    the vertex array. *)
Definition frame_vertices (point_drop_amount : Z)
  (scale_factor_x scale_factor_y scale_factor_z : spec_float)
  (depth_map : ndarray) : list vertex :=
  let '(height, width) := shape depth_map in
  let valid_mask := map (fun d => d <? INVALID_DEPTH) (cells depth_map) in
  let pixel_x := mask_select valid_mask (indices_x height width) in
  let pixel_y := mask_select valid_mask (indices_y height width) in
  let valid_depths := map F32.of_Z (mask_select valid_mask (cells depth_map)) in
  let pixel_x := decimate point_drop_amount pixel_x in
  let pixel_y := decimate point_drop_amount pixel_y in
  let valid_depths := decimate point_drop_amount valid_depths in
  let z_meters := map z_meters_of valid_depths in
  let half_width := F32.of_f64 (F64.div (F64.of_Z (Z.of_nat width)) (F64.of_Z 2)) in
  let half_height := F32.of_f64 (F64.div (F64.of_Z (Z.of_nat height)) (F64.of_Z 2)) in
  let world_x :=
    map (fun px => F32.mul (F32.neg (F32.sub px half_width)) (F32.of_f64 scale_factor_x))
        pixel_x in
  let world_y :=
    map (fun py => F32.mul (F32.sub half_height py) (F32.of_f64 scale_factor_y)) pixel_y in
  let z_gain := F32.of_f64 (F64.mul scale_factor_z (F64.of_Z 1000)) in
  let visual_z :=
    map (fun z => F32.div (F32.mul (F32.neg (log1p z)) z_gain) (F32.of_Z 2)) z_meters in
  stack3 world_x visual_z world_y.

(** [sync_logs_to_scene()]. *)
Definition sync_logs_to_scene (w : World) : result unit * World :=
  match scene w with
  | None => (Ok tt, w)                                  (* except Exception: return *)
  | Some scn =>
      let logs := log_messages w in
      match kinect_log_items scn with
      | None => (Raise (AttributeError "kinect_log_items"), w)
      | Some _ =>
          let items := logs in                          (* clear(), then one add() per entry *)
          match kinect_log_active_index scn with
          | None =>
              (Raise (AttributeError "kinect_log_active_index"),
               set_scene (Some {| kinect_point_drop_amount := kinect_point_drop_amount scn;
                                  kinect_scale_factor_x := kinect_scale_factor_x scn;
                                  kinect_scale_factor_y := kinect_scale_factor_y scn;
                                  kinect_scale_factor_z := kinect_scale_factor_z scn;
                                  kinect_log_items := Some items;
                                  kinect_log_active_index := None |}) w)
          | Some _ =>
              (Ok tt,
               set_scene (Some {| kinect_point_drop_amount := kinect_point_drop_amount scn;
                                  kinect_scale_factor_x := kinect_scale_factor_x scn;
                                  kinect_scale_factor_y := kinect_scale_factor_y scn;
                                  kinect_scale_factor_z := kinect_scale_factor_z scn;
                                  kinect_log_items := Some items;
                                  kinect_log_active_index :=
                                    Some (Z.max 0 (Z.of_nat (length items) - 1)) |}) w)
          end
      end
  end.

(** [getattr(bpy.context.scene, name, default)] and
    [bpy.context.scene.<name>] for a property read by [field]. *)
Definition getattr_default {A : Type} (w : World) (field : Scene -> option A)
  (name : string) (default : A) : result A :=
  match scene w with
  | None => Raise (AttributeError "scene")
  | Some scn => match field scn with Some v => Ok v | None => Ok default end
  end.

Definition getattr {A : Type} (w : World) (field : Scene -> option A)
  (name : string) : result A :=
  match scene w with
  | None => Raise (AttributeError "scene")
  | Some scn => match field scn with Some v => Ok v | None => Raise (AttributeError name) end
  end.

(** [create_or_get_point_cloud_obj()].  An object that exists is returned.
    Otherwise lines 115-117 make the mesh and the object, which from then on
    is found under its name, and [create_geometry_nodes_setup] adds the
    modifier and the instance dot and then fails at line 69: the test
    [instance_obj not in coll.objects] asks a collection that is keyed by
    names for an object, which raises [TypeError].  ([point_cloud w = None]
    stands for a file with neither the object nor its dot, in a context
    that has a scene and a collection.) *)
Definition create_or_get_point_cloud_obj (w : World) : result unit * World :=
  match point_cloud w with
  | Some _ => (Ok tt, w)
  | None =>
      (Raise (TypeError "instance_obj not in coll.objects"),
       set_point_cloud (Some []) w)
  end.

(** Lines 190-196. *)
Definition update_fps (w : World) : World :=
  let count := frame_count w + 1 in
  let now := clock_time w in
  let elapsed := F64.sub now (last_fps_time w) in
  if F64.leb (F64.of_Z 1) elapsed
  then set_fps 0 now (F64.div (F64.of_Z count) elapsed) w
  else set_fps count (last_fps_time w) (current_fps w) w.

(** The delay the timer callback asks for, [0.0025]. *)
Definition NEXT_DELAY : spec_float := F64.literal 25 4.

(** The part of [update_point_cloud] after a frame was taken, lines 138-202;
    an exception leaves the world as it was when it was raised. *)
Definition render_frame (depth_map : ndarray) (w0 : World) : result spec_float * World :=
  match create_or_get_point_cloud_obj w0 with
  | (Raise e, w) => (Raise e, w)
  | (Ok _, w) =>
  match getattr_default w kinect_point_drop_amount "kinect_point_drop_amount" 1 with
  | Raise e => (Raise e, w)
  | Ok _ =>
  match getattr w kinect_point_drop_amount "kinect_point_drop_amount" with   (* line 158 *)
  | Raise e => (Raise e, w)
  | Ok point_drop_amount =>
  match getattr_default w kinect_scale_factor_x "kinect_scale_factor_x" (F64.literal 5 1) with
  | Raise e => (Raise e, w)
  | Ok scale_factor_x =>
  match getattr_default w kinect_scale_factor_y "kinect_scale_factor_y" (F64.literal 5 1) with
  | Raise e => (Raise e, w)
  | Ok scale_factor_y =>
  match getattr_default w kinect_scale_factor_z "kinect_scale_factor_z" (F64.literal 5 1) with
  | Raise e => (Raise e, w)
  | Ok scale_factor_z =>
      let vertices :=
        frame_vertices point_drop_amount scale_factor_x scale_factor_y scale_factor_z
                       depth_map in
      let w := set_point_cloud (Some vertices) w in
      let w := update_fps w in
      match sync_logs_to_scene w with
      | (Raise e, w') => (Raise e, w')
      | (Ok _, w') => (Ok NEXT_DELAY, w')
      end
  end end end end end end.

(** [update_point_cloud()]. *)
Definition update_point_cloud (w : World) : result spec_float * World :=
  match get_nowait (frame_queue w) with
  | Raise _ =>                                          (* except queue.Empty *)
      match sync_logs_to_scene w with
      | (Raise e, w') => (Raise e, w')
      | (Ok _, w') => (Ok NEXT_DELAY, w')
      end
  | Ok (depth_map, rest) => render_frame depth_map (set_frame_queue rest w)
  end.
End Renderer.


(** ** The operators *)

Inductive report_level : Type := INFO | WARNING.

(** [self.report({level}, message)]. *)
Definition report : Type := report_level * string.

(** [server_thread.is_alive()]. *)
Definition is_alive (thread : nat) (w : World) : bool :=
  existsb (Nat.eqb thread) (alive_threads w).

(** [server_thread is None or not server_thread.is_alive()]. *)
Definition no_live_worker (w : World) : bool :=
  match server_thread w with
  | None => true
  | Some thread => negb (is_alive thread w)
  end.

(** [WM_OT_StartKinectServer.execute].  The new thread runs [server_run] on
    its own; here it only becomes alive. *)
Definition WM_OT_StartKinectServer_execute (w : World) : report * World :=
  if no_live_worker w then
    let w := set_stop_event false w in                            (* stop_event.clear() *)
    let thread := threads_started w in
    let w := set_server_thread (Some thread) w in
    let w := set_threads (S thread) (thread :: alive_threads w) w in   (* start() *)
    let w := set_timer_registered true w in                       (* timers.register *)
    let w := do_add_log "Kinect server started." w in
    ((INFO, "Kinect server started."%string), w)
  else
    let w := do_add_log "Start attempted but server already running." w in
    ((WARNING, "Server is already running."%string), w).

(** [WM_OT_StopKinectServer.execute].  [exited] tells whether the worker
    ends within the two seconds of [join(timeout=2.0)]. *)
Definition WM_OT_StopKinectServer_execute (exited : bool) (w : World) : report * World :=
  let w := if timer_registered w then set_timer_registered false w else w in
  match server_thread w with
  | Some thread =>
      if is_alive thread w then
        let w := set_stop_event true w in                         (* stop_event.set() *)
        let w :=
          if exited
          then set_threads (threads_started w)
                 (filter (fun t => negb (Nat.eqb thread t)) (alive_threads w)) w
          else w in                                               (* join(timeout=2.0) *)
        let w := set_server_thread None w in
        let w := do_add_log "Kinect server stopped." w in
        ((INFO, "Kinect server stopped."%string), w)
      else
        let w := do_add_log "Stop attempted but server was not running." w in
        ((WARNING, "Server is not running."%string), w)
  | None =>
      let w := do_add_log "Stop attempted but server was not running." w in
      ((WARNING, "Server is not running."%string), w)
  end.

(** [WM_OT_ClearKinectLogs.execute]. *)
Definition WM_OT_ClearKinectLogs_execute (w : World) : result unit * World :=
  let w := set_log_messages [] w in                               (* log_messages.clear() *)
  match scene w with
  | None => (Raise (AttributeError "scene"), w)
  | Some scn =>
      match kinect_log_items scn with
      | None => (Raise (AttributeError "kinect_log_items"), w)
      | Some _ =>
          match kinect_log_active_index scn with
          | None =>
              (Raise (AttributeError "kinect_log_active_index"),
               set_scene (Some {| kinect_point_drop_amount := kinect_point_drop_amount scn;
                                  kinect_scale_factor_x := kinect_scale_factor_x scn;
                                  kinect_scale_factor_y := kinect_scale_factor_y scn;
                                  kinect_scale_factor_z := kinect_scale_factor_z scn;
                                  kinect_log_items := Some [];
                                  kinect_log_active_index := None |}) w)
          | Some _ =>
              (Ok tt,
               set_scene (Some {| kinect_point_drop_amount := kinect_point_drop_amount scn;
                                  kinect_scale_factor_x := kinect_scale_factor_x scn;
                                  kinect_scale_factor_y := kinect_scale_factor_y scn;
                                  kinect_scale_factor_z := kinect_scale_factor_z scn;
                                  kinect_log_items := Some [];
                                  kinect_log_active_index := Some 0 |}) w)
          end
      end
  end.

(** The value of the formula of line 166 over the rationals, for an integer
    reading [d]: [1 / (d * -0.0030711016 + 3.3309495161)] without rounding. *)
Definition z_meters_exact (d : Z) : Q :=
  (1 / (inject_Z d * (- (30711016 # 10000000000)) + (33309495161 # 10000000000)))%Q.

(** ** Notions used in the statements *)

(** The last [n] items of a list. *)
Definition lastn {A : Type} (n : nat) (l : list A) : list A :=
  skipn (length l - n) l.

(** The entries that [add_logs] writes, first message first. *)
Definition entries (msgs : list (string * string)) : list string :=
  map (fun tm => strip (log_entry (fst tm) (snd tm))) msgs.

(** [ceil(a / b)] on natural numbers. *)
Definition ceil_div (a b : nat) : nat := ((a + b - 1) / b)%nat.

(** The cells of a depth map that pass the mask of line 147, each with its
    place in the row-major order, in that order. *)
Definition valid_pixels (depth_map : ndarray) : list (nat * Z) :=
  filter (fun kd => snd kd <? INVALID_DEPTH)
         (combine (seq 0 (length (cells depth_map))) (cells depth_map)).

Definition valid_count (depth_map : ndarray) : nat :=
  length (filter (fun d => d <? INVALID_DEPTH) (cells depth_map)).

Section PixelVertex.
Variable log1p : spec_float -> spec_float.

(** The vertex of the cell at place [k] with reading [d], lines 166-183. *)
Definition pixel_vertex (scale_factor_x scale_factor_y scale_factor_z : spec_float)
  (height width : nat) (kd : nat * Z) : vertex :=
  let px := F32.of_Z (Z.of_nat (fst kd mod width)) in
  let py := F32.of_Z (Z.of_nat (fst kd / width)) in
  let half_width := F32.of_f64 (F64.div (F64.of_Z (Z.of_nat width)) (F64.of_Z 2)) in
  let half_height := F32.of_f64 (F64.div (F64.of_Z (Z.of_nat height)) (F64.of_Z 2)) in
  let z_gain := F32.of_f64 (F64.mul scale_factor_z (F64.of_Z 1000)) in
  (F32.mul (F32.neg (F32.sub px half_width)) (F32.of_f64 scale_factor_x),
   F32.div (F32.mul (F32.neg (log1p (z_meters_of (F32.of_Z (snd kd))))) z_gain) (F32.of_Z 2),
   F32.mul (F32.sub half_height py) (F32.of_f64 scale_factor_y)).
End PixelVertex.

(** [z_meters] for the integer reading [d], as line 166 computes it. *)
Definition z_meters (d : Z) : spec_float := z_meters_of (F32.of_Z d).

(** Is [z_meters d] a number within the relative tolerance [tol] of the
    exact value of the formula? *)
Definition z_meters_close (tol : Q) (d : Z) : bool :=
  match float_value (z_meters d) with
  | Some v => Qle_bool (Qabs (v - z_meters_exact d)) (tol * Qabs (z_meters_exact d))
  | None => false
  end.

(** The closeness of [z_meters d] to the exact value that holds for every
    kept reading: 5e-5 throughout, and 1e-6 away from the pole of the
    formula, that is outside 1050 .. 1117. *)
Definition z_meters_within (d : Z) : bool :=
  z_meters_close (5 # 100000) d
  && (z_meters_close (1 # 1000000) d || ((1050 <=? d) && (d <=? 1117))).

(** A frame that the client can put on the wire: 480 x 640 cells of
    unsigned 16-bit values, with a compressed stream that fits the prefix. *)
Definition sendable (native : byteorder) (compress : list byte -> list byte)
  (depth_map : ndarray) : Prop :=
  shape depth_map = (FRAME_HEIGHT, FRAME_WIDTH)
  /\ Z.of_nat (length (cells depth_map)) = Z.of_nat FRAME_HEIGHT * Z.of_nat FRAME_WIDTH
  /\ Forall (fun v => 0 <= v < 65536) (cells depth_map)
  /\ Z.of_nat (length (compress (tobytes native depth_map))) < 2 ^ 32.

(** ** Stand-ins and sample data for the examples *)

(** A codec that stores the bytes behind one marker byte. *)
Definition stored_compress (b : list byte) : list byte := x78 :: b.

Definition stored_decompress (b : list byte) : result (list byte) :=
  match b with
  | [] => Raise (zlib_error "incomplete or truncated stream")
  | _ :: b' => Ok b'
  end.

(** A depth map with no valid reading: 2047 in every cell. *)
Definition far_frame : ndarray :=
  {| shape := (FRAME_HEIGHT, FRAME_WIDTH);
     cells := repeat 2047 (FRAME_HEIGHT * FRAME_WIDTH) |}.

(** A depth map with a reading of 500 in every cell. *)
Definition near_frame : ndarray :=
  {| shape := (FRAME_HEIGHT, FRAME_WIDTH);
     cells := repeat 500 (FRAME_HEIGHT * FRAME_WIDTH) |}.

(** The first-order term of [log1p]. *)
Definition log1p_linear (x : spec_float) : spec_float := x.


(** ** The capture client: the send loop of [main] *)

(** [Kinect.get_depth_frame]: the driver call gives a pair or, on failure,
    nothing, and then the unpacking raises the [TypeError] that is caught. *)
Definition get_depth_frame (sync_get_depth : option (ndarray * Z))
  : option ndarray * option Z :=
  match sync_get_depth with
  | Some (depth, timestamp) => (Some depth, Some timestamp)
  | None => (None, None)
  end.

(** What [s.sendall] comes to: everything was handed over, or the pipe broke
    after [delivered] bytes. *)
Inductive sendall_result : Type :=
| Sent
| BrokenPipe (delivered : nat).

(** How the loop of lines 54-69 is left. *)
Inductive send_loop_exit : Type :=
| Camera_lost          (* depth_map is None: return *)
| Reconnect            (* except BrokenPipeError: break *)
| Uncaught (e : exn)   (* an exception that the try statement does not catch *)
| Sending.             (* the listed captures are used up *)

Section ClientLoop.
Variable native : byteorder.
Variable compress : list byte -> list byte.

(** Lines 54-69 over the successive results of the driver call, each with
    the fate of its [sendall]; the second component is the byte stream the
    client has put on this connection. *)
Fixpoint send_loop (captures : list (option (ndarray * Z) * sendall_result))
  : send_loop_exit * list byte :=
  match captures with
  | [] => (Sending, [])
  | (sync_get_depth, outcome) :: rest =>
      match fst (get_depth_frame sync_get_depth) with
      | None => (Camera_lost, [])
      | Some depth_map =>
          match frame_message native compress depth_map with
          | Raise e => (Uncaught e, [])
          | Ok message =>
              match outcome with
              | Sent =>
                  let '(how, stream) := send_loop rest in (how, message ++ stream)
              | BrokenPipe delivered => (Reconnect, firstn delivered message)
              end
          end
      end
  end.
End ClientLoop.

(** ** Deactivation: [unregister] *)

(** [unregister()].  A live worker is told to stop and joined; the timer
    is removed and the six properties are deleted from the scene type; the
    handle is not cleared and [unregister] itself writes no log entry.
    [ended] tells whether the worker ends within the two seconds of the
    join; [ring] and [queue] are the log ring and the frame queue at the end
    of the join, with what the worker wrote in the meantime (it cannot end
    without the entry of line 274). *)
Definition unregister (ended : bool) (ring : list string) (queue : Queue ndarray)
  (w : World) : World :=
  let w :=
    match server_thread w with
    | Some thread =>
        if is_alive thread w then
          let w := set_stop_event true w in                       (* stop_event.set() *)
          let w := set_log_messages ring (set_frame_queue queue w) in
          if ended
          then set_threads (threads_started w)
                 (filter (fun t => negb (Nat.eqb thread t)) (alive_threads w)) w
          else w                                                  (* join(timeout=2.0) *)
        else w
    | None => w
    end in
  let w := if timer_registered w then set_timer_registered false w else w in
  set_scene (option_map (fun _ => unregistered_scene) (scene w)) w.

(** ** Further notions used in the statements *)

(** [w'] differs from [w] at most in the log ring and the frame queue. *)
Definition same_but_log_and_queue (w w' : World) : Prop :=
  w' = set_log_messages (log_messages w') (set_frame_queue (frame_queue w') w).

(** A depth map as [decode_frame] builds them. *)
Definition well_shaped (depth_map : ndarray) : Prop :=
  shape depth_map = (FRAME_HEIGHT, FRAME_WIDTH)
  /\ Z.of_nat (length (cells depth_map)) = 480 * 640
  /\ Forall (fun v => 0 <= v < 65536) (cells depth_map).

(** What a step of the worker may do to the world: only the log ring and
    the frame queue change, the ring keeps its bound, the queue does not
    grow beyond one frame and gains only frames as [decode_frame] builds
    them. *)
Definition worker_effect (w w' : World) : Prop :=
  same_but_log_and_queue w w'
  /\ ((length (log_messages w) <= log_maxlen)%nat ->
      (length (log_messages w') <= log_maxlen)%nat)
  /\ (length (frame_queue w') <= Nat.max 1 (length (frame_queue w)))%nat
  /\ (Forall well_shaped (frame_queue w) -> Forall well_shaped (frame_queue w')).

(** The world after the frames of a list were published one by one. *)
Definition published (frames : list ndarray) (w : World) : World :=
  match frames with
  | [] => w
  | F :: rest => set_frame_queue [last rest F] w
  end.

(** A capture whose frame went out in full. *)
Definition sent (F : ndarray) : option (ndarray * Z) * sendall_result :=
  (Some (F, 0), Sent).

(** Captures at which the client's process ends, and with it the
    connection: the camera is lost ([return]), or the message cannot be
    built and [struct.error] leaves [main]. *)
Definition ends_stream (native : byteorder) (compress : list byte -> list byte)
  (ending : list (option (ndarray * Z) * sendall_result)) : Prop :=
  match ending with
  | [] => False
  | (None, _) :: _ => True
  | (Some (F, _), _) :: _ => exists e, frame_message native compress F = Raise e
  end.

(** A message of ASCII characters only. *)
Definition ascii_only (s : string) : Prop :=
  Forall (fun c => (N_of_ascii c < 128)%N) (list_ascii_of_string s).

(** A scene with all six properties registered. *)
Definition scene_of (n : Z) (sx sy sz : spec_float) (items : list string) (index : Z)
  : Scene :=
  {| kinect_point_drop_amount := Some n;
     kinect_scale_factor_x := Some sx;
     kinect_scale_factor_y := Some sy;
     kinect_scale_factor_z := Some sz;
     kinect_log_items := Some items;
     kinect_log_active_index := Some index |}.

(** Does a float hold exactly the rational [q]? *)
Definition holds_exactly (x : spec_float) (q : Q) : bool :=
  match float_value x with
  | Some v => Qeq_bool v q
  | None => false
  end.

(** The sign of [z_meters d] is as the place of [d] relative to the pole of
    the formula, between 1084 and 1085, says; never zero, infinite or NaN. *)
Definition z_meters_sign_ok (d : Z) : bool :=
  match z_meters d with
  | S754_finite s _ _ => Bool.eqb s (1084 <? d)
  | _ => false
  end.

(** [world_x] and [world_y] of lines 174-177 for a column and a row, with
    the scale 0.5. *)
Definition world_x_half (col : nat) : spec_float :=
  F32.mul (F32.neg (F32.sub (F32.of_Z (Z.of_nat col))
                      (F32.of_f64 (F64.div (F64.of_Z (Z.of_nat FRAME_WIDTH)) (F64.of_Z 2)))))
          (F32.of_f64 (F64.literal 5 1)).

Definition world_y_half (row : nat) : spec_float :=
  F32.mul (F32.sub (F32.of_f64 (F64.div (F64.of_Z (Z.of_nat FRAME_HEIGHT)) (F64.of_Z 2)))
                   (F32.of_Z (Z.of_nat row)))
          (F32.of_f64 (F64.literal 5 1)).


(** * Properties *)

(** ** The log ring *)

Lemma lastn_all (A : Type) (n : nat) (l : list A) :
  (length l <= n)%nat -> lastn n l = l.
Proof.
  intros H. unfold lastn. replace (length l - n)%nat with O by lia. reflexivity.
Qed.

Lemma lastn_length (A : Type) (n : nat) (l : list A) :
  length (lastn n l) = Nat.min n (length l).
Proof. unfold lastn. rewrite length_skipn. lia. Qed.

Lemma lastn_lastn_app (A : Type) (n : nat) (l m : list A) :
  lastn n (lastn n l ++ m) = lastn n (l ++ m).
Proof.
  unfold lastn.
  rewrite !length_app, !skipn_app, length_skipn, skipn_skipn.
  f_equal; f_equal; lia.
Qed.

Lemma deque_append_lastn (A : Type) (n : nat) (d : list A) (x : A) :
  (length d <= n)%nat -> deque_append n d x = lastn n (d ++ [x]).
Proof.
  intros H. unfold deque_append.
  destruct (Nat.ltb_spec n (length (d ++ [x]))) as [Hlt|Hge].
  - rewrite length_app in Hlt. simpl in Hlt.
    assert (length d = n) by lia. subst n.
    unfold lastn. rewrite length_app. simpl.
    replace (length d + 1 - length d)%nat with 1%nat by lia.
    destruct d; reflexivity.
  - symmetry. apply lastn_all. assumption.
Qed.

Lemma deque_append_bound (A : Type) (n : nat) (d : list A) (x : A) :
  (length d <= n)%nat -> (length (deque_append n d x) <= n)%nat.
Proof.
  intros H. rewrite deque_append_lastn by assumption.
  rewrite lastn_length. lia.
Qed.

Lemma add_logs_lastn (msgs : list (string * string)) :
  forall log, (length log <= log_maxlen)%nat ->
  add_logs msgs log = lastn log_maxlen (log ++ entries msgs).
Proof.
  induction msgs as [|[ts m] msgs IH]; intros log Hlen.
  - simpl. rewrite app_nil_r. symmetry. apply lastn_all. assumption.
  - change (add_logs ((ts, m) :: msgs) log) with (add_logs msgs (add_log ts m log)).
    rewrite IH by (apply deque_append_bound; assumption).
    unfold add_log. rewrite deque_append_lastn by assumption.
    rewrite lastn_lastn_app, <- app_assoc. reflexivity.
Qed.

Lemma lastn_app_ge (A : Type) (n : nat) (l m : list A) :
  (n <= length m)%nat -> lastn n (l ++ m) = lastn n m.
Proof.
  intros H. unfold lastn. rewrite length_app, skipn_app.
  rewrite skipn_all2 by lia. simpl. f_equal. lia.
Qed.

Lemma entries_skipn (k : nat) (msgs : list (string * string)) :
  skipn k (entries msgs) = entries (skipn k msgs).
Proof. unfold entries. apply skipn_map. Qed.

(** C8.  Adding 15 messages with [add_log], whatever the ring held before,
    leaves exactly the entries of the last 10 of them, oldest first; and
    [WM_OT_ClearKinectLogs.execute], on a scene with the log properties,
    empties the ring and the UI list and sets the active index to 0. *)
Theorem log_ring_bound_and_clear :
  forall (log : list string) (msgs : list (string * string))
         (w : World) (scn : Scene) (items : list string) (index : Z),
    (length log <= log_maxlen)%nat ->
    length msgs = 15%nat ->
    scene w = Some scn ->
    kinect_log_items scn = Some items ->
    kinect_log_active_index scn = Some index ->
    add_logs msgs log = entries (skipn 5 msgs)
    /\ length (add_logs msgs log) = 10%nat
    /\ fst (WM_OT_ClearKinectLogs_execute w) = Ok tt
    /\ log_messages (snd (WM_OT_ClearKinectLogs_execute w)) = []
    /\ exists scn', scene (snd (WM_OT_ClearKinectLogs_execute w)) = Some scn'
                    /\ kinect_log_items scn' = Some []
                    /\ kinect_log_active_index scn' = Some 0.
Proof.
  intros log msgs w scn items index Hlog Hmsgs Hscn Hitems Hindex.
  assert (Hring : add_logs msgs log = entries (skipn 5 msgs)).
  { rewrite add_logs_lastn by assumption.
    rewrite lastn_app_ge by (unfold entries, log_maxlen; rewrite length_map; lia).
    unfold lastn, entries, log_maxlen. rewrite length_map, Hmsgs.
    apply entries_skipn. }
  split; [exact Hring|]. split.
  - rewrite Hring. unfold entries. rewrite length_map, length_skipn. lia.
  - unfold WM_OT_ClearKinectLogs_execute. simpl. rewrite Hscn, Hitems, Hindex. simpl.
    repeat split. eexists. repeat split.
Qed.

Lemma log_ring_bound_and_clear_witness :
  let msgs := map (fun m => ("12:00:00"%string, m))
                ["m01"; "m02"; "m03"; "m04"; "m05"; "m06"; "m07"; "m08";
                 "m09"; "m10"; "m11"; "m12"; "m13"; "m14"; "m15"]%string in
  let w := initial_world (Some registered_scene) "12:00:00" (F64.of_Z 0) in
  add_logs msgs ["[11:59:59] older"%string] = entries (skipn 5 msgs)
  /\ length (add_logs msgs ["[11:59:59] older"%string]) = 10%nat
  /\ fst (WM_OT_ClearKinectLogs_execute w) = Ok tt
  /\ log_messages (snd (WM_OT_ClearKinectLogs_execute w)) = []
  /\ exists scn', scene (snd (WM_OT_ClearKinectLogs_execute w)) = Some scn'
                  /\ kinect_log_items scn' = Some []
                  /\ kinect_log_active_index scn' = Some 0.
Proof.
  intros msgs w.
  apply (@log_ring_bound_and_clear ["[11:59:59] older"%string] msgs w
           registered_scene [] 0).
  - unfold log_maxlen. simpl. lia.
  - reflexivity.
  - reflexivity.
  - reflexivity.
  - reflexivity.
Defined.

(** ** The single-slot queue *)

Lemma drain_unfold (A : Type) (q : Queue A) :
  drain q = if empty q then q
            else match get_nowait q with
                 | Ok (_, q') => drain q'
                 | Raise _ => q                              (* except queue.Empty: break *)
                 end.
Proof. destruct q; reflexivity. Qed.

Lemma drain_nil (A : Type) (q : Queue A) : drain q = [].
Proof. induction q; simpl; auto. Qed.

Lemma publish_single (A : Type) (q : Queue A) (f : A) : publish q f = [f].
Proof. unfold publish, put. rewrite drain_nil. reflexivity. Qed.

(** C1.  Whatever the queue held, after every publish exactly one frame, the
    one just published, is waiting; after F1, F2, F3 published in a row with
    no consumption in between the queue is F3 alone: the renderer's
    [get_nowait] returns F3 and leaves the queue empty, so that the next
    [get_nowait] raises [queue.Empty]. *)
Theorem latest_wins_queue :
  forall (A : Type) (q : Queue A) (F1 F2 F3 : A),
    let q1 := publish q F1 in
    let q2 := publish q1 F2 in
    let q3 := publish q2 F3 in
    (length q1 <= 1 /\ length q2 <= 1 /\ length q3 <= 1)%nat
    /\ q3 = [F3]
    /\ get_nowait q3 = Ok (F3, [])
    /\ get_nowait (@nil A) = Raise queue_Empty.
Proof.
  intros A q F1 F2 F3 q1 q2 q3. subst q1 q2 q3.
  rewrite !publish_single. simpl.
  repeat split; lia.
Qed.

(** ** Receiving from the socket *)

Lemma recv_spec (conn : Conn) (bufsize : nat) :
  pending conn = fst (recv conn bufsize) ++ pending (snd (recv conn bufsize))
  /\ (length (fst (recv conn bufsize)) <= bufsize)%nat
  /\ ((0 < bufsize)%nat -> fst (recv conn bufsize) = [] -> pending conn = []).
Proof.
  unfold pending.
  induction conn as [|seg rest IH]; simpl.
  - repeat split; auto. lia.
  - destruct seg as [|b seg]; [exact IH|].
    destruct (Nat.leb_spec (length (b :: seg)) bufsize) as [Hle|Hgt]; simpl fst; simpl snd.
    + repeat split; auto. discriminate.
    + repeat split.
      * simpl concat. rewrite app_assoc, firstn_skipn. reflexivity.
      * rewrite length_firstn. lia.
      * intros Hpos Hnil. destruct bufsize; [lia|]. simpl in Hnil. discriminate.
Qed.

Lemma recvall_loop_eq (fuel : nat) (conn : Conn) (n : nat) (data : list byte) :
  recvall_loop fuel conn n data =
  if (length data <? n)%nat then
    match fuel with
    | O => None
    | S fuel' =>
        match fst (recv conn (n - length data)) with
        | [] => Some (None, snd (recv conn (n - length data)))
        | _ => recvall_loop fuel' (snd (recv conn (n - length data))) n
                 (data ++ fst (recv conn (n - length data)))
        end
    end
  else Some (Some data, conn).
Proof.
  destruct fuel; simpl; [reflexivity|].
  destruct (recv conn (n - length data)) as [packet conn']. reflexivity.
Qed.

(** With [n - len(data)] passes allowed the loop of [recvall] always comes to
    an end: with [n] bytes, taken off the front of the stream in order, or
    with [None] when the peer closes before the [n]th byte. *)
Lemma recvall_loop_spec (fuel : nat) :
  forall (conn : Conn) (n : nat) (data : list byte),
    (length data <= n)%nat -> (n - length data <= fuel)%nat ->
    (exists x conn',
        recvall_loop fuel conn n data = Some (Some (data ++ x), conn')
        /\ length (data ++ x) = n /\ pending conn = x ++ pending conn')
    \/ (exists conn',
        recvall_loop fuel conn n data = Some (None, conn')
        /\ (length data + length (pending conn) < n)%nat).
Proof.
  induction fuel as [|fuel IH]; intros conn n data Hlen Hfuel;
    rewrite recvall_loop_eq;
    destruct (Nat.ltb_spec (length data) n) as [Hlt|Hge];
    try (left; exists [], conn; rewrite app_nil_r; repeat split; lia).
  destruct (recv_spec conn (n - length data)) as [Hcat [Hsize Hclosed]].
  destruct (fst (recv conn (n - length data))) as [|b packet] eqn:Hpacket.
  - right. eexists. split; [reflexivity|].
    rewrite Hclosed by (auto; lia). simpl. lia.
  - simpl in Hsize.
    destruct (IH (snd (recv conn (n - length data))) n (data ++ b :: packet))
      as [[x [conn' [Hrun [Hn Hrest]]]]|[conn' [Hrun Hshort]]].
    + rewrite length_app. simpl. lia.
    + rewrite length_app. simpl. lia.
    + left. exists ((b :: packet) ++ x), conn'. rewrite app_assoc.
      repeat split; auto. rewrite Hcat, Hrest, app_assoc. reflexivity.
    + right. exists conn'. split; [assumption|].
      rewrite Hcat. rewrite !length_app in *. simpl in *. lia.
Qed.

Lemma recvall_spec (conn : Conn) (n : nat) :
  (exists data conn',
      recvall conn n = Some (Some data, conn')
      /\ length data = n /\ pending conn = data ++ pending conn')
  \/ (exists conn',
      recvall conn n = Some (None, conn') /\ (length (pending conn) < n)%nat).
Proof.
  unfold recvall.
  destruct (@recvall_loop_spec n conn n []) as [[x [conn' H]]|[conn' H]];
    simpl; try lia.
  - left. exists x, conn'. exact H.
  - right. exists conn'. exact H.
Qed.

Lemma app_eq_length (A : Type) (a b c d : list A) :
  a ++ b = c ++ d -> length a = length c -> a = c /\ b = d.
Proof.
  revert c. induction a as [|x a IH]; intros [|y c] H Hl; simpl in *;
    try discriminate; auto.
  injection H as -> H. injection Hl as Hl.
  destruct (IH c H Hl) as [-> ->]. auto.
Qed.

(** When the stream holds the [n] bytes, [recvall] returns them, however
    they are cut into segments. *)
Lemma recvall_exact (conn : Conn) (n : nat) (pre rest : list byte) :
  pending conn = pre ++ rest -> length pre = n ->
  exists conn', recvall conn n = Some (Some pre, conn') /\ pending conn' = rest.
Proof.
  intros Hpending Hpre.
  destruct (recvall_spec conn n) as [[data [conn' [Hrun [Hn Hcat]]]]|[conn' [Hrun Hshort]]].
  - rewrite Hpending in Hcat.
    destruct (@app_eq_length _ pre rest data (pending conn') Hcat) as [-> ->]; [lia|].
    exists conn'. auto.
  - rewrite Hpending, length_app in Hshort. lia.
Qed.

Lemma recvall_zero (conn : Conn) : recvall conn 0 = Some (Some [], conn).
Proof. reflexivity. Qed.

(** ** Bytes, length prefix and array serialisation *)

Lemma Z_of_byte_of_Z (z : Z) : Z_of_byte (byte_of_Z z) = z mod 256.
Proof.
  unfold Z_of_byte, byte_of_Z.
  assert (Hrange : 0 <= z mod 256 < 256) by (apply Z.mod_pos_bound; lia).
  destruct (Byte.of_N (Z.to_N (z mod 256))) as [b|] eqn:Hb.
  - apply Byte.to_of_N in Hb. rewrite Hb. apply Z2N.id. lia.
  - apply Byte.of_N_None_iff in Hb. lia.
Qed.

Lemma struct_pack_I_length (n : Z) (buf : list byte) :
  struct_pack_I n = Ok buf -> length buf = 4%nat.
Proof.
  unfold struct_pack_I. destruct ((0 <=? n) && (n <? 2 ^ 32)); [|discriminate].
  intros H. injection H as <-. reflexivity.
Qed.

Lemma struct_pack_I_ok (n : Z) :
  0 <= n < 2 ^ 32 -> exists buf, struct_pack_I n = Ok buf.
Proof.
  intros H. unfold struct_pack_I.
  replace ((0 <=? n) && (n <? 2 ^ 32)) with true; [eexists; reflexivity|].
  symmetry. apply andb_true_iff. split; [apply Z.leb_le|apply Z.ltb_lt]; lia.
Qed.

Lemma struct_unpack_pack_I (n : Z) (buf : list byte) :
  struct_pack_I n = Ok buf -> struct_unpack_I buf = Ok n.
Proof.
  unfold struct_pack_I.
  destruct ((0 <=? n) && (n <? 2 ^ 32)) eqn:Hrange; [|discriminate].
  apply andb_true_iff in Hrange. destruct Hrange as [Hlo Hhi].
  apply Z.leb_le in Hlo. apply Z.ltb_lt in Hhi.
  intros H. injection H as <-. unfold struct_unpack_I.
  rewrite !Z_of_byte_of_Z. f_equal.
  change (2 ^ 24) with 16777216. change (2 ^ 16) with 65536.
  change (2 ^ 8) with 256. change (2 ^ 32) with 4294967296 in Hhi.
  Z.to_euclidean_division_equations. lia.
Qed.

Section Serialisation.
Variable native : byteorder.

Lemma uint16_of_bytes_bytes (v : Z) :
  0 <= v < 65536 ->
  match uint16_bytes native v with
  | [b0; b1] => uint16_of_bytes native b0 b1 = v
  | _ => False
  end.
Proof.
  intros H. unfold uint16_bytes, uint16_of_bytes.
  destruct native; rewrite !Z_of_byte_of_Z;
    Z.to_euclidean_division_equations; lia.
Qed.

Lemma uint16_items_tobytes (items : list Z) :
  Forall (fun v => 0 <= v < 65536) items ->
  uint16_items native (flat_map (uint16_bytes native) items) = items.
Proof.
  induction 1 as [|v items Hv _ IH]; [reflexivity|].
  simpl flat_map.
  pose proof (uint16_of_bytes_bytes Hv) as Hpair.
  destruct (uint16_bytes native v) as [|b0 [|b1 [|b2 tl]]]; try contradiction.
  simpl. rewrite Hpair, IH. reflexivity.
Qed.

Lemma tobytes_length (a : ndarray) :
  length (tobytes native a) = (2 * length (cells a))%nat.
Proof.
  unfold tobytes. induction (cells a) as [|v items IH]; [reflexivity|].
  simpl flat_map. rewrite length_app, IH.
  unfold uint16_bytes. destruct native; simpl; lia.
Qed.

(** [frombuffer] and [reshape] undo [tobytes] on a 480 x 640 grid of
    unsigned 16-bit values. *)
Lemma reshape_frombuffer_tobytes (a : ndarray) :
  shape a = (FRAME_HEIGHT, FRAME_WIDTH) ->
  Z.of_nat (length (cells a)) = Z.of_nat FRAME_HEIGHT * Z.of_nat FRAME_WIDTH ->
  Forall (fun v => 0 <= v < 65536) (cells a) ->
  (items <- frombuffer native (tobytes native a) ;; reshape items) = Ok a.
Proof.
  intros Hshape Hlen Hrange. unfold frombuffer.
  rewrite tobytes_length.
  replace (Nat.even (2 * length (cells a))) with true.
  2:{ symmetry. apply Nat.even_spec. exists (length (cells a)). reflexivity. }
  simpl bind. unfold tobytes. rewrite uint16_items_tobytes by assumption.
  unfold reshape. rewrite Hlen, Z.eqb_refl.
  destruct a as [sh cs]. simpl in *. subst sh. reflexivity.
Qed.
End Serialisation.

(** ** The connection loop *)

Section ServerProperties.
Variable native : byteorder.
Variable decompress : list byte -> result (list byte).
Variable exn_text : exn -> string.

Lemma struct_unpack_I_length (buf : list byte) (n : Z) :
  struct_unpack_I buf = Ok n -> length buf = 4%nat.
Proof.
  destruct buf as [|b3 [|b2 [|b1 [|b0 [|b buf]]]]]; simpl; try discriminate.
  reflexivity.
Qed.

(** One pass over the loop body always comes to a result, and a pass that
    yields a frame has taken the four bytes of the prefix and a payload of at
    least one byte off the stream. *)
Lemma read_frame_cases (conn : Conn) :
  read_frame native decompress conn = Some Stop_reading
  \/ (exists e, read_frame native decompress conn = Some (Failed e))
  \/ (exists depth_map conn',
        read_frame native decompress conn = Some (Frame depth_map conn')
        /\ (length (pending conn') + 5 <= length (pending conn))%nat).
Proof.
  unfold read_frame.
  destruct (recvall_spec conn 4)
    as [[raw [conn1 [Hrun [Hraw Hcat]]]]|[conn1 [Hrun _]]]; rewrite Hrun; auto.
  destruct raw as [|b3 raw]; auto.
  destruct (struct_unpack_I (b3 :: raw)) as [data_size|e]; [|right; left; eauto].
  destruct (recvall_spec conn1 (Z.to_nat data_size))
    as [[data [conn2 [Hrun2 [Hdata Hcat2]]]]|[conn2 [Hrun2 _]]]; rewrite Hrun2; auto.
  destruct data as [|b data]; auto.
  destruct (decode_frame native decompress (b :: data)) as [depth_map|e];
    [|right; left; eauto].
  right; right. exists depth_map, conn2. split; [reflexivity|].
  rewrite Hcat, Hcat2, !length_app, Hraw. simpl. lia.
Qed.

Lemma connection_loop_total (fuel : nat) :
  forall (conn : Conn) (w : World),
    (length (pending conn) < fuel)%nat ->
    exists r w', connection_loop native decompress fuel conn w = Some (r, w').
Proof.
  induction fuel as [|fuel IH]; intros conn w Hfuel; [lia|].
  simpl. destruct (stop_event w); [eauto|].
  destruct (read_frame_cases conn) as [H|[[e H]|[depth_map [conn' [H Hless]]]]];
    rewrite H; eauto.
  apply IH. lia.
Qed.

Lemma handle_connection_total (conn : Conn) (w : World) :
  exists r w', handle_connection native decompress conn w = Some (r, w').
Proof. unfold handle_connection. apply connection_loop_total. lia. Qed.

Lemma accept_pass_total (accepted : result Conn) (w : World) :
  exists control w', accept_pass native decompress exn_text accepted w = Some (control, w').
Proof.
  unfold accept_pass. destruct accepted as [conn|e].
  - destruct (handle_connection_total conn (do_add_log "Client connected" w))
      as [r [w1 H]]. rewrite H.
    destruct r as [u|e]; [eauto|]. destruct e; eauto.
  - destruct e; eauto.
Qed.

Lemma accept_loop_total (accepts : list (result Conn)) :
  forall w, exists state w',
    accept_loop native decompress exn_text accepts w = Some (state, w').
Proof.
  induction accepts as [|accepted rest IH]; intros w; simpl;
    destruct (stop_event w); eauto.
  destruct (accept_pass_total accepted w) as [control [w1 H]]. rewrite H.
  destruct control; eauto.
Qed.

(** The frames of a connection never pile up: the loop leaves at most one
    frame more than it found, and none but the newest. *)
Lemma connection_loop_queue (fuel : nat) :
  forall (conn : Conn) (w : World) r w',
    connection_loop native decompress fuel conn w = Some (r, w') ->
    frame_queue w' = frame_queue w \/ exists depth_map, frame_queue w' = [depth_map].
Proof.
  induction fuel as [|fuel IH]; intros conn w r w' H; [discriminate|].
  simpl in H. destruct (stop_event w); [injection H as _ <-; auto|].
  destruct (read_frame native decompress conn) as [[|e|depth_map conn1]|];
    try discriminate; try (injection H as _ <-; auto).
  apply IH in H. simpl in H. rewrite publish_single in H.
  destruct H as [H|H]; eauto.
Qed.
End ServerProperties.

(** C10.  A message whose length prefix decodes to 0 ends the connection
    loop where it stands: [recvall(conn, 0)] returns the empty buffer, the
    body of the loop takes it for a closed peer, and the world, the frame
    queue included, is as before; the pass over the [try] statement then
    only adds the two log lines of a connection.  And [recvall(conn, n)]
    always returns: either the next [n] bytes of the stream, exactly, or
    [None] when the peer closes before the [n]th byte. *)
Theorem zero_length_message_ends_connection :
  forall (native : byteorder) (decompress : list byte -> result (list byte))
         (exn_text : exn -> string)
         (conn : Conn) (header rest : list byte) (w : World) (fuel : nat),
    struct_unpack_I header = Ok 0 ->
    pending conn = header ++ rest ->
    (forall conn0, recvall conn0 0 = Some (Some [], conn0))
    /\ read_frame native decompress conn = Some Stop_reading
    /\ connection_loop native decompress (S fuel) conn w = Some (Ok tt, w)
    /\ accept_pass native decompress exn_text (Ok conn) w =
         Some (Continue, do_add_log "Client disconnected" (do_add_log "Client connected" w))
    /\ forall (conn0 : Conn) (n : nat),
         (0 < n)%nat ->
         (exists data conn',
             recvall conn0 n = Some (Some data, conn')
             /\ length data = n /\ pending conn0 = data ++ pending conn')
         \/ (exists conn',
             recvall conn0 n = Some (None, conn') /\ (length (pending conn0) < n)%nat).
Proof.
  intros native decompress exn_text conn header rest w fuel Hzero Hpending.
  assert (Hread : read_frame native decompress conn = Some Stop_reading).
  { unfold read_frame.
    destruct (@recvall_exact conn 4 header rest Hpending
                (struct_unpack_I_length _ Hzero)) as [conn1 [Hrun _]].
    rewrite Hrun.
    destruct header as [|b3 header]; [discriminate|].
    rewrite Hzero. reflexivity. }
  assert (Hloop : forall fuel0 w0,
             connection_loop native decompress (S fuel0) conn w0 = Some (Ok tt, w0)).
  { intros fuel0 w0. simpl. rewrite Hread. destruct (stop_event w0); reflexivity. }
  split; [intros conn0; apply recvall_zero|].
  split; [exact Hread|].
  split; [apply Hloop|].
  split.
  - unfold accept_pass, handle_connection. rewrite Hloop. reflexivity.
  - intros conn0 n _. apply recvall_spec.
Qed.

Lemma zero_length_message_ends_connection_witness :
  let conn : Conn := [[x00; x00]; [x00; x00; x2a]] in
  let w := initial_world (Some registered_scene) "12:00:00" (F64.of_Z 0) in
  (forall conn0, recvall conn0 0 = Some (Some [], conn0))
  /\ read_frame little (fun b => Ok b) conn = Some Stop_reading
  /\ connection_loop little (fun b => Ok b) 1 conn w = Some (Ok tt, w)
  /\ accept_pass little (fun b => Ok b) (fun _ => EmptyString) (Ok conn) w =
       Some (Continue, do_add_log "Client disconnected" (do_add_log "Client connected" w))
  /\ forall (conn0 : Conn) (n : nat),
       (0 < n)%nat ->
       (exists data conn',
           recvall conn0 n = Some (Some data, conn')
           /\ length data = n /\ pending conn0 = data ++ pending conn')
       \/ (exists conn',
           recvall conn0 n = Some (None, conn') /\ (length (pending conn0) < n)%nat).
Proof.
  intros conn w.
  apply (@zero_length_message_ends_connection little (fun b => Ok b)
           (fun _ => EmptyString) conn [x00; x00; x00; x00] [x2a] w 0%nat).
  - reflexivity.
  - reflexivity.
Defined.

(** ** Round trip of a frame *)

Section RoundTrip.
Variable native : byteorder.
Variable compress : list byte -> list byte.
Variable decompress : list byte -> result (list byte).

(** [zlib.decompress] undoes [zlib.compress], and a zlib stream is never
    empty. *)
Hypothesis decompress_compress : forall b, decompress (compress b) = Ok b.
Hypothesis compress_not_empty : forall b, compress b <> [].

Lemma frame_roundtrip (depth_map : ndarray) :
  shape depth_map = (FRAME_HEIGHT, FRAME_WIDTH) ->
  Z.of_nat (length (cells depth_map)) = Z.of_nat FRAME_HEIGHT * Z.of_nat FRAME_WIDTH ->
  Forall (fun v => 0 <= v < 65536) (cells depth_map) ->
  Z.of_nat (length (compress (tobytes native depth_map))) < 2 ^ 32 ->
  exists message,
    frame_message native compress depth_map = Ok message
    /\ forall (conn : Conn) (rest : list byte),
         pending conn = message ++ rest ->
         exists conn',
           read_frame native decompress conn = Some (Frame depth_map conn')
           /\ pending conn' = rest.
Proof.
  intros Hshape Hlen Hrange Hsize.
  set (data := compress (tobytes native depth_map)) in *.
  destruct (@struct_pack_I_ok (Z.of_nat (length data))) as [header Hpack]; [lia|].
  exists (header ++ data). split.
  { unfold frame_message. fold data. rewrite Hpack. reflexivity. }
  intros conn rest Hpending.
  rewrite <- app_assoc in Hpending.
  destruct (@recvall_exact conn 4 header (data ++ rest) Hpending
              (struct_pack_I_length _ Hpack)) as [conn1 [Hrun1 Hpending1]].
  destruct (@recvall_exact conn1 (length data) data rest Hpending1 eq_refl)
    as [conn2 [Hrun2 Hpending2]].
  exists conn2. split; [|exact Hpending2].
  unfold read_frame. rewrite Hrun1.
  pose proof (struct_pack_I_length _ Hpack) as Hfour.
  destruct header as [|b3 header]; [discriminate|].
  rewrite (struct_unpack_pack_I _ Hpack), Nat2Z.id, Hrun2.
  assert (Hne : data <> []) by apply compress_not_empty.
  destruct data as [|b data'] eqn:Hdata; [contradiction|].
  unfold decode_frame. rewrite <- Hdata. unfold data.
  rewrite decompress_compress. simpl bind.
  rewrite reshape_frombuffer_tobytes by assumption. reflexivity.
Qed.
End RoundTrip.

(** C7.  For a 480 x 640 grid of values in [0, 2047], with a compressor
    whose output the decompressor undoes and whose stream for the grid fits
    the 32-bit prefix: the client builds a message, and the server, reading a
    stream that starts with this message, in whatever segments it arrives,
    decodes the very same grid (so its bytes are the bytes that were sent)
    and leaves exactly the rest of the stream unread. *)
Theorem roundtrip_framing :
  forall (native : byteorder)
         (compress : list byte -> list byte)
         (decompress : list byte -> result (list byte))
         (depth_map : ndarray),
    (forall b, decompress (compress b) = Ok b) ->
    (forall b, compress b <> []) ->
    shape depth_map = (FRAME_HEIGHT, FRAME_WIDTH) ->
    Z.of_nat (length (cells depth_map)) = 480 * 640 ->
    Forall (fun v => 0 <= v <= 2047) (cells depth_map) ->
    Z.of_nat (length (compress (tobytes native depth_map))) < 2 ^ 32 ->
    exists message,
      frame_message native compress depth_map = Ok message
      /\ forall (conn : Conn) (rest : list byte),
           pending conn = message ++ rest ->
           exists depth_map' conn',
             read_frame native decompress conn = Some (Frame depth_map' conn')
             /\ depth_map' = depth_map
             /\ tobytes native depth_map' = tobytes native depth_map
             /\ pending conn' = rest.
Proof.
  intros native compress decompress depth_map Hinv Hne Hshape Hlen Hrange Hsize.
  destruct (@frame_roundtrip native compress decompress Hinv Hne depth_map)
    as [message [Hmsg Hread]]; auto.
  - eapply Forall_impl; [|exact Hrange]. simpl. intros v Hv. lia.
  - exists message. split; [exact Hmsg|].
    intros conn rest Hpending.
    destruct (Hread conn rest Hpending) as [conn' [Hframe Hrest]].
    exists depth_map, conn'. auto.
Qed.


Lemma roundtrip_framing_witness :
  exists message,
    frame_message little stored_compress far_frame = Ok message
    /\ forall (conn : Conn) (rest : list byte),
         pending conn = message ++ rest ->
         exists depth_map' conn',
           read_frame little stored_decompress conn = Some (Frame depth_map' conn')
           /\ depth_map' = far_frame
           /\ tobytes little depth_map' = tobytes little far_frame
           /\ pending conn' = rest.
Proof.
  apply (@roundtrip_framing little stored_compress stored_decompress far_frame).
  - intros b. reflexivity.
  - intros b. discriminate.
  - reflexivity.
  - unfold far_frame, cells. rewrite repeat_length, Nat2Z.inj_mul. reflexivity.
  - apply Forall_forall. intros v Hv. apply repeat_spec in Hv. subst v. lia.
  - unfold stored_compress. cbn [length]. rewrite tobytes_length.
    unfold far_frame, cells. rewrite repeat_length.
    rewrite Nat2Z.inj_succ, !Nat2Z.inj_mul. reflexivity.
Defined.

(** ** Three frames over one connection *)

Section LatestFrame.
Variable native : byteorder.
Variable compress : list byte -> list byte.
Variable decompress : list byte -> result (list byte).
Hypothesis decompress_compress : forall b, decompress (compress b) = Ok b.
Hypothesis compress_not_empty : forall b, compress b <> [].

Lemma read_frame_closed (conn : Conn) :
  pending conn = [] -> read_frame native decompress conn = Some Stop_reading.
Proof.
  intros Hclosed. unfold read_frame.
  destruct (recvall_spec conn 4)
    as [[raw [conn1 [Hrun [Hraw Hcat]]]]|[conn1 [Hrun _]]]; rewrite Hrun; auto.
  rewrite Hclosed in Hcat. symmetry in Hcat. apply app_eq_nil in Hcat.
  destruct Hcat as [-> _]. discriminate.
Qed.

Lemma connection_loop_frame (fuel : nat) (conn conn' : Conn) (w : World)
      (depth_map : ndarray) :
  stop_event w = false ->
  read_frame native decompress conn = Some (Frame depth_map conn') ->
  connection_loop native decompress (S fuel) conn w
  = connection_loop native decompress fuel conn' (set_frame_queue [depth_map] w).
Proof.
  intros Hstop Hread. simpl. rewrite Hstop, Hread, publish_single. reflexivity.
Qed.

(** Three frames sent one after the other and read in one connection, with
    no tick of the renderer in between: the queue ends with the third. *)
Lemma three_frames_leave_the_last (F1 F2 F3 : ndarray) (conn : Conn) (w : World) :
  sendable native compress F1 -> sendable native compress F2 ->
  sendable native compress F3 ->
  stop_event w = false ->
  (exists m1 m2 m3,
      frame_message native compress F1 = Ok m1
      /\ frame_message native compress F2 = Ok m2
      /\ frame_message native compress F3 = Ok m3
      /\ pending conn = m1 ++ m2 ++ m3) ->
  handle_connection native decompress conn w = Some (Ok tt, set_frame_queue [F3] w).
Proof.
  intros [Hs1 [Hl1 [Hr1 Hz1]]] [Hs2 [Hl2 [Hr2 Hz2]]] [Hs3 [Hl3 [Hr3 Hz3]]] Hstop
         [m1 [m2 [m3 [Hm1 [Hm2 [Hm3 Hpending]]]]]].
  destruct (@frame_roundtrip native compress decompress decompress_compress
              compress_not_empty F1 Hs1 Hl1 Hr1 Hz1) as [m1' [Hm1' Hread1]].
  destruct (@frame_roundtrip native compress decompress decompress_compress
              compress_not_empty F2 Hs2 Hl2 Hr2 Hz2) as [m2' [Hm2' Hread2]].
  destruct (@frame_roundtrip native compress decompress decompress_compress
              compress_not_empty F3 Hs3 Hl3 Hr3 Hz3) as [m3' [Hm3' Hread3]].
  rewrite Hm1 in Hm1'. injection Hm1' as <-.
  rewrite Hm2 in Hm2'. injection Hm2' as <-.
  rewrite Hm3 in Hm3'. injection Hm3' as <-.
  destruct (Hread1 conn (m2 ++ m3) Hpending) as [conn1 [Hf1 Hp1]].
  destruct (Hread2 conn1 m3 Hp1) as [conn2 [Hf2 Hp2]].
  destruct (Hread3 conn2 [] (eq_trans Hp2 (eq_sym (app_nil_r m3)))) as [conn3 [Hf3 Hp3]].
  unfold handle_connection.
  assert (Hfuel : exists fuel, S (length (pending conn)) = S (S (S (S fuel)))).
  { destruct (read_frame_cases native decompress conn)
      as [H|[[e H]|[d [c [H Hless]]]]]; rewrite Hf1 in H; try discriminate.
    injection H as _ <-.
    destruct (read_frame_cases native decompress conn1)
      as [H|[[e H]|[d' [c [H Hless1]]]]]; rewrite Hf2 in H; try discriminate.
    injection H as _ <-.
    destruct (read_frame_cases native decompress conn2)
      as [H|[[e H]|[d'' [c [H Hless2]]]]]; rewrite Hf3 in H; try discriminate.
    exists (length (pending conn) - 3)%nat. lia. }
  destruct Hfuel as [fuel ->].
  rewrite (@connection_loop_frame _ conn conn1 w F1 Hstop Hf1).
  rewrite (@connection_loop_frame _ conn1 conn2 (set_frame_queue [F1] w) F2 Hstop Hf2).
  rewrite (@connection_loop_frame _ conn2 conn3
             (set_frame_queue [F2] (set_frame_queue [F1] w)) F3 Hstop Hf3).
  simpl. rewrite Hstop, (@read_frame_closed conn3 Hp3). reflexivity.
Qed.
End LatestFrame.

(** ** The accept loop and the log *)

Lemma deque_append_last (A : Type) (n : nat) (d : list A) (x dflt : A) :
  (0 < n)%nat -> last (deque_append n d x) dflt = x.
Proof.
  intros Hn. unfold deque_append.
  destruct (Nat.ltb_spec n (length (d ++ [x]))) as [Hlt|Hge].
  - rewrite length_app in Hlt. simpl in Hlt.
    destruct d as [|y d]; simpl in *; [lia|]. apply last_last.
  - apply last_last.
Qed.

Lemma do_add_log_last (msg : string) (w : World) :
  last (log_messages (do_add_log msg w)) EmptyString
  = strip (log_entry (clock_hms w) msg).
Proof.
  unfold do_add_log, add_log. simpl.
  apply deque_append_last. unfold log_maxlen. lia.
Qed.

(** C2.  What the code does when [s.accept()] times out: the pass goes on
    to the next one, but only after the [finally] clause has written
    "Client disconnected" to the log, so that the entry is the newest one of
    the ring; three timeouts in a row after the start of [server_run] leave
    three such entries. *)
Theorem accept_timeout_is_logged :
  forall (native : byteorder) (decompress : list byte -> result (list byte))
         (exn_text : exn -> string) (w : World),
    accept_pass native decompress exn_text (Raise socket_timeout) w
    = Some (Continue, do_add_log "Client disconnected" w)
    /\ last (log_messages (do_add_log "Client disconnected" w)) EmptyString
       = strip (log_entry (clock_hms w) "Client disconnected")
    /\ option_map (fun r => log_messages (snd r))
         (server_run native decompress exn_text "/tmp/server.sock"
            [Raise socket_timeout; Raise socket_timeout; Raise socket_timeout]
            (initial_world (Some registered_scene) "12:00:00" (F64.of_Z 0)))
       = Some ["[12:00:00] Server listening on socket: /tmp/server.sock";
               "[12:00:00] Client disconnected";
               "[12:00:00] Client disconnected";
               "[12:00:00] Client disconnected"]%string.
Proof.
  intros native decompress exn_text w.
  split; [reflexivity|]. split; [apply do_add_log_last|].
  vm_compute. reflexivity.
Qed.

(** ** The operators *)

Lemma set_timer_registered_same (w : World) :
  timer_registered w = false -> set_timer_registered false w = w.
Proof. destruct w. simpl. intros ->. reflexivity. Qed.

Lemma stop_without_worker (exited : bool) (w : World) :
  no_live_worker w = true ->
  WM_OT_StopKinectServer_execute exited w
  = ((WARNING, "Server is not running."%string),
     do_add_log "Stop attempted but server was not running."
       (set_timer_registered false w)).
Proof.
  intros Hdead. unfold WM_OT_StopKinectServer_execute.
  assert (Hw : (if timer_registered w then set_timer_registered false w else w)
               = set_timer_registered false w).
  { destruct (timer_registered w) eqn:Ht; [reflexivity|].
    symmetry. apply set_timer_registered_same. assumption. }
  rewrite Hw. unfold no_live_worker in Hdead.
  change (server_thread (set_timer_registered false w)) with (server_thread w).
  destruct (server_thread w) as [thread|]; [|reflexivity].
  change (is_alive thread (set_timer_registered false w)) with (is_alive thread w).
  destruct (is_alive thread w); [discriminate|reflexivity].
Qed.

(** The claim of C3 as it is worded fails on the module's initial state:
    [Stop] with no worker alive writes to the log. *)
Lemma stop_changes_the_log :
  ~ (forall (exited : bool) (w : World),
        no_live_worker w = true -> snd (WM_OT_StopKinectServer_execute exited w) = w).
Proof.
  intros H.
  specialize (H false (initial_world (Some registered_scene) "12:00:00" (F64.of_Z 0)) eq_refl).
  apply (f_equal log_messages) in H. vm_compute in H. discriminate H.
Qed.

(** C3, amended.  [Stop] with no worker alive reports a warning, appends
    "Stop attempted but server was not running." to the log, leaves the
    timer unregistered and changes nothing else, so that with the timer not
    registered only the log differs.  [Start] twice in a row, with no thread
    alive before, leaves exactly the one worker of the first call alive; the
    second call reports a warning and only appends a log entry. *)
Theorem lifecycle_guard :
  forall (exited : bool) (w v : World),
    no_live_worker w = true ->
    alive_threads v = [] ->
    (fst (WM_OT_StopKinectServer_execute exited w) = (WARNING, "Server is not running."%string)
     /\ snd (WM_OT_StopKinectServer_execute exited w)
        = set_log_messages
            (add_log (clock_hms w) "Stop attempted but server was not running."
               (log_messages w))
            (set_timer_registered false w)
     /\ (timer_registered w = false ->
         snd (WM_OT_StopKinectServer_execute exited w)
         = set_log_messages
             (add_log (clock_hms w) "Stop attempted but server was not running."
                (log_messages w)) w))
    /\ (fst (WM_OT_StartKinectServer_execute v) = (INFO, "Kinect server started."%string)
        /\ fst (WM_OT_StartKinectServer_execute (snd (WM_OT_StartKinectServer_execute v)))
           = (WARNING, "Server is already running."%string)
        /\ alive_threads (snd (WM_OT_StartKinectServer_execute (snd (WM_OT_StartKinectServer_execute v)))) = [threads_started v]
        /\ server_thread (snd (WM_OT_StartKinectServer_execute (snd (WM_OT_StartKinectServer_execute v))))
           = Some (threads_started v)
        /\ snd (WM_OT_StartKinectServer_execute (snd (WM_OT_StartKinectServer_execute v)))
           = do_add_log "Start attempted but server already running."
               (snd (WM_OT_StartKinectServer_execute v))).
Proof.
  intros exited w v Hdead Hnone. split.
  - rewrite stop_without_worker by assumption. simpl.
    split; [reflexivity|]. split; [reflexivity|].
    intros Ht. rewrite (set_timer_registered_same _ Ht). reflexivity.
  - assert (Hfirst : no_live_worker v = true).
    { unfold no_live_worker, is_alive. rewrite Hnone.
      destruct (server_thread v); reflexivity. }
    assert (Hstart : WM_OT_StartKinectServer_execute v
                     = ((INFO, "Kinect server started."%string),
                        do_add_log "Kinect server started."
                          (set_timer_registered true
                             (set_threads (S (threads_started v))
                                (threads_started v :: alive_threads v)
                                (set_server_thread (Some (threads_started v))
                                   (set_stop_event false v)))))).
    { unfold WM_OT_StartKinectServer_execute. rewrite Hfirst. reflexivity. }
    rewrite Hstart. simpl fst. simpl snd.
    unfold WM_OT_StartKinectServer_execute, no_live_worker, is_alive. simpl.
    rewrite Nat.eqb_refl, Hnone. simpl.
    repeat split.
Qed.

Lemma lifecycle_guard_witness :
  let w := initial_world (Some registered_scene) "12:00:00" (F64.of_Z 0) in
  (fst (WM_OT_StopKinectServer_execute true w) = (WARNING, "Server is not running."%string)
   /\ snd (WM_OT_StopKinectServer_execute true w)
      = set_log_messages
          (add_log (clock_hms w) "Stop attempted but server was not running."
             (log_messages w))
          (set_timer_registered false w)
   /\ (timer_registered w = false ->
       snd (WM_OT_StopKinectServer_execute true w)
       = set_log_messages
           (add_log (clock_hms w) "Stop attempted but server was not running."
              (log_messages w)) w))
  /\ (fst (WM_OT_StartKinectServer_execute w) = (INFO, "Kinect server started."%string)
      /\ fst (WM_OT_StartKinectServer_execute (snd (WM_OT_StartKinectServer_execute w)))
         = (WARNING, "Server is already running."%string)
      /\ alive_threads (snd (WM_OT_StartKinectServer_execute (snd (WM_OT_StartKinectServer_execute w)))) = [threads_started w]
      /\ server_thread (snd (WM_OT_StartKinectServer_execute (snd (WM_OT_StartKinectServer_execute w))))
         = Some (threads_started w)
      /\ snd (WM_OT_StartKinectServer_execute (snd (WM_OT_StartKinectServer_execute w)))
         = do_add_log "Start attempted but server already running."
             (snd (WM_OT_StartKinectServer_execute w))).
Proof.
  intros w.
  apply (@lifecycle_guard true w w).
  - reflexivity.
  - reflexivity.
Defined.

(** ** The renderer and the scene properties *)

(** C4.  What the code does on a tick with a frame waiting and the
    point cloud object in place, while the four settings are not registered:
    the read of [kinect_point_drop_amount] with a fallback, line 140, gives
    1, but the second read of the same property, line 158, has no fallback
    and raises [AttributeError], so the tick ends there, before any vertex
    is computed. *)
Theorem drop_amount_reread_raises :
  forall (log1p : spec_float -> spec_float) (w : World)
         (depth_map : ndarray) (rest : Queue ndarray) (vertices : list vertex)
         (items : option (list string)) (index : option Z),
    let scn := {| kinect_point_drop_amount := None; kinect_scale_factor_x := None;
                  kinect_scale_factor_y := None; kinect_scale_factor_z := None;
                  kinect_log_items := items; kinect_log_active_index := index |} in
    let w0 := set_point_cloud (Some vertices)
                (set_scene (Some scn) (set_frame_queue (depth_map :: rest) w)) in
    getattr_default w0 kinect_point_drop_amount "kinect_point_drop_amount" 1 = Ok 1
    /\ getattr w0 kinect_point_drop_amount "kinect_point_drop_amount"
       = Raise (AttributeError "kinect_point_drop_amount")
    /\ fst (update_point_cloud log1p w0)
       = Raise (AttributeError "kinect_point_drop_amount")
    /\ point_cloud (snd (update_point_cloud log1p w0)) = Some vertices.
Proof.
  intros log1p w depth_map rest vertices items index scn w0.
  repeat split.
Qed.

(** ** Decimation *)


Lemma every_nth_from_length (A : Type) (step : nat) (arr : list A) :
  (0 < step)%nat ->
  forall skip, length (every_nth_from skip step arr) = ceil_div (length arr - skip) step.
Proof.
  intros Hstep. unfold ceil_div.
  induction arr as [|x arr IH]; intros skip; cbn [every_nth_from length].
  - rewrite Nat.div_small; lia.
  - destruct skip as [|skip]; cbn [length]; [|rewrite IH; f_equal; lia].
    rewrite IH.
    replace (S (length arr) - 0 + step - 1)%nat with (length arr + 1 * step)%nat by lia.
    rewrite Nat.div_add by lia.
    destruct (Nat.le_gt_cases (step - 1) (length arr)) as [Hle|Hgt].
    + replace (length arr - (step - 1) + step - 1)%nat with (length arr) by lia. lia.
    + replace (length arr - (step - 1) + step - 1)%nat with (step - 1)%nat by lia.
      rewrite !Nat.div_small by lia. reflexivity.
Qed.

Lemma every_nth_from_nth_error (A : Type) (step : nat) (arr : list A) :
  (0 < step)%nat ->
  forall skip i,
    nth_error (every_nth_from skip step arr) i = nth_error arr (skip + i * step).
Proof.
  intros Hstep.
  induction arr as [|x arr IH]; intros skip i; simpl.
  - destruct i, skip; simpl; try reflexivity; destruct (_ + _)%nat; reflexivity.
  - destruct skip as [|skip]; simpl.
    + destruct i as [|i]; [reflexivity|]. simpl. rewrite IH.
      destruct step as [|step]; [lia|]. simpl.
      rewrite Nat.sub_0_r. reflexivity.
    + apply IH.
Qed.

Lemma every_nth_from_map (A B : Type) (f : A -> B) (step : nat) (arr : list A) :
  forall skip, every_nth_from skip step (map f arr) = map f (every_nth_from skip step arr).
Proof.
  induction arr as [|x arr IH]; intros skip; simpl; [reflexivity|].
  destruct skip; simpl; rewrite IH; reflexivity.
Qed.

Lemma decimate_map (A B : Type) (f : A -> B) (n : Z) (arr : list A) :
  decimate n (map f arr) = map f (decimate n arr).
Proof.
  unfold decimate, slice_step. destruct (1 <? n); [apply every_nth_from_map|reflexivity].
Qed.

Lemma decimate_length (A : Type) (n : Z) (arr : list A) :
  1 <= n -> length (decimate n arr) = ceil_div (length arr) (Z.to_nat n).
Proof.
  intros Hn. unfold decimate, slice_step.
  destruct (Z.ltb_spec 1 n) as [Hgt|Hle].
  - rewrite every_nth_from_length by lia. rewrite Nat.sub_0_r. reflexivity.
  - assert (n = 1) by lia. subst n. unfold ceil_div. simpl Z.to_nat.
    rewrite Nat.div_1_r. lia.
Qed.

Lemma decimate_nth_error (A : Type) (n : Z) (arr : list A) (i : nat) :
  1 <= n -> nth_error (decimate n arr) i = nth_error arr (i * Z.to_nat n).
Proof.
  intros Hn. unfold decimate, slice_step.
  destruct (Z.ltb_spec 1 n) as [Hgt|Hle].
  - rewrite every_nth_from_nth_error by lia. reflexivity.
  - assert (n = 1) by lia. subst n. simpl Z.to_nat. rewrite Nat.mul_1_r. reflexivity.
Qed.

Lemma ceil_div_Z (a b : nat) :
  (0 < b)%nat ->
  Z.of_nat (ceil_div a b) = (Z.of_nat a + Z.of_nat b - 1) / Z.of_nat b.
Proof.
  intros Hb. unfold ceil_div. rewrite Nat2Z.inj_div. f_equal. lia.
Qed.

(** ** From the depth map to the vertices *)


Lemma seq_offset (start len : nat) :
  seq start len = map (fun j => (start + j)%nat) (seq 0 len).
Proof.
  revert start. induction len as [|len IH]; intros start; simpl; [reflexivity|].
  rewrite Nat.add_0_r. f_equal.
  rewrite (IH (S start)), (IH 1%nat), map_map.
  apply map_ext. intros j. lia.
Qed.

Lemma repeat_as_map (A : Type) (x : A) (n : nat) :
  repeat x n = map (fun _ => x) (seq 0 n).
Proof.
  rewrite (seq_offset 0 n). induction n as [|n IH]; [reflexivity|].
  simpl. rewrite <- seq_shift, !map_map. simpl in IH. rewrite map_map in IH.
  f_equal. exact IH.
Qed.

(** A grid built row by row is the image of the places 0 .. h*w - 1. *)
Lemma rows_as_places (A : Type) (g : nat -> nat -> A) (width : nat) :
  forall height row,
    flat_map (fun i => map (g i) (seq 0 width)) (seq row height)
    = map (fun k => g (k / width)%nat (k mod width)%nat)
          (seq (row * width) (height * width)).
Proof.
  induction height as [|height IH]; intros row; [reflexivity|].
  cbn [seq flat_map]. rewrite IH.
  replace (S height * width)%nat with (width + height * width)%nat by lia.
  rewrite seq_app, map_app.
  replace (row * width + width)%nat with (S row * width)%nat by lia.
  f_equal.
  rewrite (seq_offset (row * width) width), map_map.
  apply map_ext_in. intros j Hj. apply in_seq in Hj.
  assert (Hw : width <> 0%nat) by lia.
  f_equal.
  - rewrite Nat.add_comm, Nat.div_add by assumption.
    rewrite Nat.div_small by lia. reflexivity.
  - rewrite Nat.add_comm, Nat.Div0.mod_add. symmetry. apply Nat.mod_small. lia.
Qed.

Lemma indices_x_places (height width : nat) :
  indices_x height width
  = map (fun k => F32.of_Z (Z.of_nat (k mod width))) (seq 0 (height * width)).
Proof.
  unfold indices_x.
  rewrite (rows_as_places (fun _ j => F32.of_Z (Z.of_nat j)) width height 0).
  reflexivity.
Qed.

Lemma indices_y_places (height width : nat) :
  indices_y height width
  = map (fun k => F32.of_Z (Z.of_nat (k / width))) (seq 0 (height * width)).
Proof.
  unfold indices_y.
  etransitivity;
    [|exact (rows_as_places (fun i _ => F32.of_Z (Z.of_nat i)) width height 0)].
  apply flat_map_ext. intros i. apply repeat_as_map.
Qed.

Lemma combine_fst (A B : Type) (a : list A) :
  forall b : list B, length a = length b -> map fst (combine a b) = a.
Proof.
  induction a as [|x a IH]; intros [|y b] H; simpl in *; try discriminate; auto.
  f_equal. apply IH. lia.
Qed.

Lemma combine_snd (A B : Type) (a : list A) :
  forall b : list B, length a = length b -> map snd (combine a b) = b.
Proof.
  induction a as [|x a IH]; intros [|y b] H; simpl in *; try discriminate; auto.
  f_equal. apply IH. lia.
Qed.

(** Selecting by a mask computed from the items themselves is a filter. *)
Lemma mask_select_filter (A B : Type) (p : A -> bool) (g : A -> B) (l : list A) :
  mask_select (map p l) (map g l) = map g (filter p l).
Proof.
  induction l as [|x l IH]; simpl; [reflexivity|].
  destruct (p x); simpl; rewrite IH; reflexivity.
Qed.

Lemma stack3_map (A : Type) (a b c : A -> spec_float) (l : list A) :
  stack3 (map a l) (map b l) (map c l) = map (fun x => (a x, b x, c x)) l.
Proof. induction l as [|x l IH]; simpl; [reflexivity|]. rewrite IH. reflexivity. Qed.

(** The three parallel arrays of [update_point_cloud] hold, place by place,
    the coordinates and the readings of the valid cells: the vertex array is
    the image of the decimated sequence of valid cells. *)
Lemma frame_vertices_pixels (log1p : spec_float -> spec_float) (point_drop_amount : Z)
      (sx sy sz : spec_float) (depth_map : ndarray) (height width : nat) :
  shape depth_map = (height, width) ->
  length (cells depth_map) = (height * width)%nat ->
  frame_vertices log1p point_drop_amount sx sy sz depth_map
  = map (pixel_vertex log1p sx sy sz height width)
        (decimate point_drop_amount (valid_pixels depth_map)).
Proof.
  intros Hshape Hlen.
  unfold frame_vertices, valid_pixels. rewrite Hshape.
  rewrite indices_x_places, indices_y_places, <- Hlen.
  set (P := combine (seq 0 (length (cells depth_map))) (cells depth_map)).
  assert (Hfst : seq 0 (length (cells depth_map)) = map fst P).
  { symmetry. apply combine_fst. apply length_seq. }
  assert (Hsnd : cells depth_map = map snd P).
  { symmetry. apply combine_snd. apply length_seq. }
  rewrite Hfst, Hsnd. clear Hfst Hsnd.
  rewrite !map_map.
  rewrite (mask_select_filter (fun kd => snd kd <? INVALID_DEPTH)
             (fun kd => F32.of_Z (Z.of_nat (fst kd mod width))) P).
  rewrite (mask_select_filter (fun kd => snd kd <? INVALID_DEPTH)
             (fun kd => F32.of_Z (Z.of_nat (fst kd / width))) P).
  rewrite (mask_select_filter (fun kd => snd kd <? INVALID_DEPTH) snd P).
  rewrite !map_map, !decimate_map, !map_map.
  apply stack3_map.
Qed.

Lemma valid_pixels_spec (depth_map : ndarray) (k : nat) (d : Z) :
  In (k, d) (valid_pixels depth_map)
  <-> nth_error (cells depth_map) k = Some d /\ d < INVALID_DEPTH.
Proof.
  unfold valid_pixels. rewrite filter_In. simpl. rewrite Z.ltb_lt.
  assert (Hcomb : forall (l : list Z) start,
             In (k, d) (combine (seq start (length l)) l)
             <-> (start <= k)%nat /\ nth_error l (k - start) = Some d).
  { induction l as [|x l IH]; intros start; simpl.
    - split; [contradiction|]. intros [_ H]. destruct (k - start)%nat; discriminate.
    - rewrite IH. split.
      + intros [H|[Hle H]].
        * injection H as <- <-. rewrite Nat.sub_diag. auto.
        * split; [lia|]. replace (k - start)%nat with (S (k - S start)) by lia. exact H.
      + intros [Hle H]. destruct (Nat.eq_dec start k) as [->|Hne].
        * rewrite Nat.sub_diag in H. injection H as ->. auto.
        * right. split; [lia|].
          replace (k - start)%nat with (S (k - S start)) in H by lia. exact H. }
  rewrite Hcomb, Nat.sub_0_r. intuition lia.
Qed.

Lemma valid_pixels_length (depth_map : ndarray) :
  length (valid_pixels depth_map) = valid_count depth_map.
Proof.
  unfold valid_pixels, valid_count.
  generalize 0%nat. induction (cells depth_map) as [|x l IH]; intros start; simpl.
  - reflexivity.
  - destruct (x <? INVALID_DEPTH); simpl; rewrite IH; reflexivity.
Qed.

Lemma every_nth_from_In (A : Type) (step : nat) (x : A) (arr : list A) :
  forall skip, In x (every_nth_from skip step arr) -> In x arr.
Proof.
  induction arr as [|y arr IH]; intros skip H; simpl in *; [assumption|].
  destruct skip; simpl in H; [destruct H|]; eauto.
Qed.

Lemma decimate_In (A : Type) (n : Z) (x : A) (arr : list A) :
  In x (decimate n arr) -> In x arr.
Proof.
  unfold decimate, slice_step. destruct (1 <? n); [apply every_nth_from_In|auto].
Qed.

(** With the object in place and all six properties registered, a tick
    with a frame waiting takes the frame, asks for the next call and leaves
    the vertices of [frame_vertices] in the mesh. *)
Lemma update_point_cloud_renders (log1p : spec_float -> spec_float) (w : World)
      (depth_map : ndarray) (rest : Queue ndarray) (old : list vertex)
      (n : Z) (sx sy sz : spec_float) (items : list string) (index : Z) :
  frame_queue w = depth_map :: rest ->
  point_cloud w = Some old ->
  scene w = Some {| kinect_point_drop_amount := Some n;
                    kinect_scale_factor_x := Some sx;
                    kinect_scale_factor_y := Some sy;
                    kinect_scale_factor_z := Some sz;
                    kinect_log_items := Some items;
                    kinect_log_active_index := Some index |} ->
  fst (update_point_cloud log1p w) = Ok NEXT_DELAY
  /\ frame_queue (snd (update_point_cloud log1p w)) = rest
  /\ point_cloud (snd (update_point_cloud log1p w))
     = Some (frame_vertices log1p n sx sy sz depth_map).
Proof.
  intros Hq Hpc Hscn.
  unfold update_point_cloud, render_frame, create_or_get_point_cloud_obj,
    getattr_default, getattr, sync_logs_to_scene, update_fps.
  rewrite Hq. simpl. rewrite Hpc. simpl. rewrite Hscn. simpl.
  destruct (F64.leb _ _); simpl; rewrite Hscn; simpl; auto.
Qed.

(** C5.  For a drop amount N in 1 .. 64 the decimation step keeps
    ceil(len / N) items of any sequence, the items at the places 0, N, 2N,
    ... in their order; hence the renderer turns the [valid_count] valid
    cells of a 480 x 640 depth map into ceil(valid_count / N) vertices, the
    i-th of which comes from the valid cell number i * N. *)
Theorem decimation_stride :
  forall (log1p : spec_float -> spec_float) (A : Type) (valid : list A) (N : Z)
         (sx sy sz : spec_float) (depth_map : ndarray),
    1 <= N <= 64 ->
    shape depth_map = (FRAME_HEIGHT, FRAME_WIDTH) ->
    length (cells depth_map) = (FRAME_HEIGHT * FRAME_WIDTH)%nat ->
    Z.of_nat (length (decimate N valid)) = (Z.of_nat (length valid) + N - 1) / N
    /\ (forall i, nth_error (decimate N valid) i = nth_error valid (i * Z.to_nat N))
    /\ Z.of_nat (length (frame_vertices log1p N sx sy sz depth_map))
       = (Z.of_nat (valid_count depth_map) + N - 1) / N
    /\ (forall i,
          nth_error (frame_vertices log1p N sx sy sz depth_map) i
          = option_map (pixel_vertex log1p sx sy sz FRAME_HEIGHT FRAME_WIDTH)
              (nth_error (valid_pixels depth_map) (i * Z.to_nat N))).
Proof.
  intros log1p A valid N sx sy sz depth_map HN Hshape Hlen.
  assert (Hceil : forall (B : Type) (l : list B),
             Z.of_nat (length (decimate N l)) = (Z.of_nat (length l) + N - 1) / N).
  { intros B l. rewrite decimate_length by lia.
    rewrite ceil_div_Z by lia. rewrite Z2Nat.id by lia. reflexivity. }
  split; [apply Hceil|].
  split; [intros i; apply decimate_nth_error; lia|].
  rewrite (frame_vertices_pixels log1p N sx sy sz depth_map Hshape Hlen).
  split.
  - rewrite length_map, Hceil, valid_pixels_length. reflexivity.
  - intros i. rewrite nth_error_map, decimate_nth_error by lia. reflexivity.
Qed.


Lemma decimation_stride_witness :
  Z.of_nat (length (decimate 3 [10; 11; 12; 13; 14; 15; 16])) = (Z.of_nat 7 + 3 - 1) / 3
  /\ (forall i, nth_error (decimate 3 [10; 11; 12; 13; 14; 15; 16]) i
                = nth_error [10; 11; 12; 13; 14; 15; 16] (i * Z.to_nat 3))
  /\ Z.of_nat (length (frame_vertices log1p_linear 3 (F64.literal 5 1) (F64.literal 5 1)
                         (F64.of_Z 1) near_frame))
     = (Z.of_nat (valid_count near_frame) + 3 - 1) / 3
  /\ (forall i,
        nth_error (frame_vertices log1p_linear 3 (F64.literal 5 1) (F64.literal 5 1)
                     (F64.of_Z 1) near_frame) i
        = option_map (pixel_vertex log1p_linear (F64.literal 5 1) (F64.literal 5 1)
                        (F64.of_Z 1) FRAME_HEIGHT FRAME_WIDTH)
            (nth_error (valid_pixels near_frame) (i * Z.to_nat 3))).
Proof.
  apply (@decimation_stride log1p_linear Z [10; 11; 12; 13; 14; 15; 16] 3
           (F64.literal 5 1) (F64.literal 5 1) (F64.of_Z 1) near_frame).
  - lia.
  - reflexivity.
  - apply repeat_length.
Defined.

Lemma valid_pixels_all_invalid (depth_map : ndarray) :
  Forall (fun d => d = INVALID_DEPTH) (cells depth_map) ->
  valid_pixels depth_map = [].
Proof.
  intros Hall. apply length_zero_iff_nil.
  rewrite valid_pixels_length. unfold valid_count.
  induction Hall as [|d l Hd _ IH]; [reflexivity|].
  simpl. subst d. rewrite Z.ltb_irrefl. exact IH.
Qed.

Lemma decimate_nil (A : Type) (n : Z) : decimate n (@nil A) = [].
Proof. unfold decimate. destruct (1 <? n); reflexivity. Qed.

(** C6.  For a 480 x 640 depth map the vertex array is the image of the
    decimated sequence of valid cells, every one of which holds a reading
    below 2047; so a cell that holds 2047 has no vertex, whatever the drop
    amount and the scales, and a map of 2047 throughout has no vertex at
    all. *)
Theorem validity_masking :
  forall (log1p : spec_float -> spec_float) (N : Z) (sx sy sz : spec_float)
         (depth_map : ndarray),
    shape depth_map = (FRAME_HEIGHT, FRAME_WIDTH) ->
    length (cells depth_map) = (FRAME_HEIGHT * FRAME_WIDTH)%nat ->
    frame_vertices log1p N sx sy sz depth_map
    = map (pixel_vertex log1p sx sy sz FRAME_HEIGHT FRAME_WIDTH)
          (decimate N (valid_pixels depth_map))
    /\ (forall k d, In (k, d) (decimate N (valid_pixels depth_map)) ->
                    nth_error (cells depth_map) k = Some d /\ d < 2047)
    /\ (forall k, nth_error (cells depth_map) k = Some 2047 ->
                  forall d, ~ In (k, d) (decimate N (valid_pixels depth_map)))
    /\ (Forall (fun d => d = 2047) (cells depth_map) ->
        frame_vertices log1p N sx sy sz depth_map = []).
Proof.
  intros log1p N sx sy sz depth_map Hshape Hlen.
  assert (Hkept : forall k d, In (k, d) (decimate N (valid_pixels depth_map)) ->
                              nth_error (cells depth_map) k = Some d /\ d < 2047).
  { intros k d Hin. apply decimate_In in Hin. apply valid_pixels_spec in Hin. exact Hin. }
  rewrite (frame_vertices_pixels log1p N sx sy sz depth_map Hshape Hlen).
  split; [reflexivity|]. split; [exact Hkept|]. split.
  - intros k Hcell d Hin. apply Hkept in Hin. destruct Hin as [Hd Hlt].
    rewrite Hcell in Hd. injection Hd as <-. lia.
  - intros Hall. rewrite valid_pixels_all_invalid by exact Hall.
    rewrite decimate_nil. reflexivity.
Qed.

Lemma validity_masking_witness :
  frame_vertices log1p_linear 1 (F64.literal 5 1) (F64.literal 5 1) (F64.of_Z 1) far_frame
  = map (pixel_vertex log1p_linear (F64.literal 5 1) (F64.literal 5 1) (F64.of_Z 1)
           FRAME_HEIGHT FRAME_WIDTH)
        (decimate 1 (valid_pixels far_frame))
  /\ (forall k d, In (k, d) (decimate 1 (valid_pixels far_frame)) ->
                  nth_error (cells far_frame) k = Some d /\ d < 2047)
  /\ (forall k, nth_error (cells far_frame) k = Some 2047 ->
                forall d, ~ In (k, d) (decimate 1 (valid_pixels far_frame)))
  /\ (Forall (fun d => d = 2047) (cells far_frame) ->
      frame_vertices log1p_linear 1 (F64.literal 5 1) (F64.literal 5 1) (F64.of_Z 1)
        far_frame = []).
Proof.
  apply (@validity_masking log1p_linear 1 (F64.literal 5 1) (F64.literal 5 1)
           (F64.of_Z 1) far_frame).
  - reflexivity.
  - apply repeat_length.
Defined.

(** ** Depth to metres *)


Lemma z_meters_within_upto_2046 :
  forallb z_meters_within (map Z.of_nat (seq 0 2047)) = true.
Proof. vm_compute. reflexivity. Qed.

Lemma z_meters_close_spec (tol : Q) (d : Z) :
  z_meters_close tol d = true ->
  exists v, float_value (z_meters d) = Some v
            /\ (Qabs (v - z_meters_exact d) <= tol * Qabs (z_meters_exact d))%Q.
Proof.
  unfold z_meters_close. destruct (float_value (z_meters d)) as [v|]; [|discriminate].
  intros H. exists v. split; [reflexivity|]. apply Qle_bool_iff. exact H.
Qed.

(** The claim of C9 as it is worded fails at the reading 1023: neither the
    float32 result nor the exact value of the formula is within a thousandth
    of 1.041.  And the tolerance 1e-6 is not kept at every kept reading: at
    1085, next to the pole of the formula, the float32 result is a number
    that is further than that from the exact value. *)
Lemma z_meters_1023_is_not_1_041 :
  ~ (exists v, float_value (z_meters 1023) = Some v
               /\ (Qabs (v - (1041 # 1000)) <= (1 # 1000))%Q)
  /\ ~ (Qabs (z_meters_exact 1023 - (1041 # 1000)) <= (1 # 1000))%Q
  /\ ~ (exists v, float_value (z_meters 1085) = Some v
                  /\ (Qabs (v - z_meters_exact 1085)
                      <= (1 # 1000000) * Qabs (z_meters_exact 1085))%Q).
Proof.
  split; [|split].
  - intros [v [Hv Hclose]]. vm_compute in Hv. injection Hv as <-.
    vm_compute in Hclose. apply Hclose. reflexivity.
  - intros Hclose. vm_compute in Hclose. apply Hclose. reflexivity.
  - intros [v [Hv Hclose]]. vm_compute in Hv. injection Hv as <-.
    vm_compute in Hclose. apply Hclose. reflexivity.
Qed.

(** C9, amended.  For every kept reading [d], 0 .. 2046, the float32
    result of line 166 is a number within the relative tolerance 5e-5 of
    [1 / (d * -0.0030711016 + 3.3309495161)], and within 1e-6 of it for
    every reading outside 1050 .. 1117, so for 0 and for 1023.  For 0 the
    formula gives [1 / 3.3309495161], about 0.3002; for 1023 it gives about
    5.285; about 1.041 is what it gives for 772. *)
Theorem depth_to_meters :
  forall d : Z,
    0 <= d <= 2046 ->
    (exists v, float_value (z_meters d) = Some v
               /\ (Qabs (v - z_meters_exact d)
                   <= (5 # 100000) * Qabs (z_meters_exact d))%Q
               /\ (d < 1050 \/ 1117 < d ->
                   (Qabs (v - z_meters_exact d)
                    <= (1 # 1000000) * Qabs (z_meters_exact d))%Q))
    /\ (z_meters_exact 0 == 1 / (33309495161 # 10000000000))%Q
    /\ (Qabs (z_meters_exact 0 - (3002 # 10000)) <= (5 # 100000))%Q
    /\ (Qabs (z_meters_exact 1023 - (5285 # 1000)) <= (5 # 10000))%Q
    /\ (Qabs (z_meters_exact 772 - (1041 # 1000)) <= (1 # 1000))%Q.
Proof.
  intros d Hd. split.
  - pose proof z_meters_within_upto_2046 as Hall.
    rewrite forallb_forall in Hall.
    assert (Hin : In d (map Z.of_nat (seq 0 2047))).
    { apply in_map_iff. exists (Z.to_nat d). split; [lia|]. apply in_seq. lia. }
    apply Hall in Hin. unfold z_meters_within in Hin.
    apply andb_true_iff in Hin. destruct Hin as [Hwide Hnarrow].
    destruct (z_meters_close_spec _ _ Hwide) as [v [Hv Hclose]].
    exists v. split; [exact Hv|]. split; [exact Hclose|].
    intros Hfar. apply orb_true_iff in Hnarrow. destruct Hnarrow as [Hnarrow|Hnear].
    + destruct (z_meters_close_spec _ _ Hnarrow) as [v' [Hv' Hclose']].
      rewrite Hv in Hv'. injection Hv' as <-. exact Hclose'.
    + apply andb_true_iff in Hnear. destruct Hnear as [Hlo Hhi].
      apply Z.leb_le in Hlo. apply Z.leb_le in Hhi. lia.
  - repeat split; vm_compute; intros H; discriminate H.
Qed.

Lemma depth_to_meters_witness :
  (exists v, float_value (z_meters 1023) = Some v
             /\ (Qabs (v - z_meters_exact 1023)
                 <= (5 # 100000) * Qabs (z_meters_exact 1023))%Q
             /\ (1023 < 1050 \/ 1117 < 1023 ->
                 (Qabs (v - z_meters_exact 1023)
                  <= (1 # 1000000) * Qabs (z_meters_exact 1023))%Q))
  /\ (z_meters_exact 0 == 1 / (33309495161 # 10000000000))%Q
  /\ (Qabs (z_meters_exact 0 - (3002 # 10000)) <= (5 # 100000))%Q
  /\ (Qabs (z_meters_exact 1023 - (5285 # 1000)) <= (5 # 10000))%Q
  /\ (Qabs (z_meters_exact 772 - (1041 # 1000)) <= (1 # 1000))%Q.
Proof.
  apply (@depth_to_meters 1023). lia.
Defined.

(** * Further properties *)

(** ** The length prefix and the array bytes, both ways *)

Lemma Z_of_byte_range (b : byte) : 0 <= Z_of_byte b < 256.
Proof.
  unfold Z_of_byte. pose proof (Byte.to_N_bounded b) as H. lia.
Qed.

Lemma byte_of_Z_of_byte (b : byte) : byte_of_Z (Z_of_byte b) = b.
Proof.
  unfold byte_of_Z. rewrite Z.mod_small by apply Z_of_byte_range.
  unfold Z_of_byte. rewrite N2Z.id, Byte.of_to_N. reflexivity.
Qed.

Lemma byte_of_Z_eq (z : Z) (b : byte) : z mod 256 = Z_of_byte b -> byte_of_Z z = b.
Proof.
  intros H. rewrite <- (byte_of_Z_of_byte b), <- H.
  unfold byte_of_Z. rewrite Z.mod_mod by lia. reflexivity.
Qed.

Lemma struct_pack_unpack_I (buf : list byte) :
  length buf = 4%nat ->
  exists m, struct_unpack_I buf = Ok m /\ 0 <= m < 2 ^ 32 /\ struct_pack_I m = Ok buf.
Proof.
  intros Hlen.
  destruct buf as [|b3 [|b2 [|b1 [|b0 [|b buf]]]]]; try discriminate.
  eexists. split; [reflexivity|].
  pose proof (Z_of_byte_range b3). pose proof (Z_of_byte_range b2).
  pose proof (Z_of_byte_range b1). pose proof (Z_of_byte_range b0).
  change (2 ^ 24) with 16777216. change (2 ^ 16) with 65536.
  change (2 ^ 8) with 256. change (2 ^ 32) with 4294967296.
  split; [lia|]. unfold struct_pack_I.
  change (2 ^ 24) with 16777216. change (2 ^ 16) with 65536.
  change (2 ^ 8) with 256. change (2 ^ 32) with 4294967296.
  replace ((0 <=? _) && (_ <? 4294967296)) with true.
  2:{ symmetry. apply andb_true_iff. split; [apply Z.leb_le|apply Z.ltb_lt]; lia. }
  repeat f_equal; apply byte_of_Z_eq; Z.to_euclidean_division_equations; lia.
Qed.

(** X1.  [struct.pack('!I', n)] and [struct.unpack('!I', buf)] undo each
    other: a length in 0 .. 2^32 - 1 packs into four bytes that unpack to it,
    and any four bytes unpack to such a length that packs back into them; a
    length outside the range is refused with [struct.error]. *)
Theorem length_prefix_both_ways :
  forall (n m : Z) (buf : list byte),
    0 <= n < 2 ^ 32 ->
    ~ (0 <= m < 2 ^ 32) ->
    length buf = 4%nat ->
    (exists packed, struct_pack_I n = Ok packed
                    /\ length packed = 4%nat
                    /\ struct_unpack_I packed = Ok n)
    /\ struct_pack_I m = Raise struct_error
    /\ (exists k, struct_unpack_I buf = Ok k
                  /\ 0 <= k < 2 ^ 32
                  /\ struct_pack_I k = Ok buf).
Proof.
  intros n m buf Hn Hm Hbuf. split; [|split].
  - destruct (struct_pack_I_ok Hn) as [packed Hpack]. exists packed.
    split; [exact Hpack|]. split.
    + exact (struct_pack_I_length _ Hpack).
    + exact (struct_unpack_pack_I _ Hpack).
  - unfold struct_pack_I.
    destruct ((0 <=? m) && (m <? 2 ^ 32)) eqn:Hrange; [|reflexivity].
    apply andb_true_iff in Hrange. destruct Hrange as [Hlo Hhi].
    apply Z.leb_le in Hlo. apply Z.ltb_lt in Hhi. exfalso. apply Hm. lia.
  - apply struct_pack_unpack_I. exact Hbuf.
Qed.

Lemma length_prefix_both_ways_witness :
  (exists packed, struct_pack_I 614400 = Ok packed
                  /\ length packed = 4%nat
                  /\ struct_unpack_I packed = Ok 614400)
  /\ struct_pack_I (2 ^ 32) = Raise struct_error
  /\ (exists k, struct_unpack_I [x00; x09; x60; x00] = Ok k
                /\ 0 <= k < 2 ^ 32
                /\ struct_pack_I k = Ok [x00; x09; x60; x00]).
Proof.
  apply (@length_prefix_both_ways 614400 (2 ^ 32) [x00; x09; x60; x00]).
  - lia.
  - lia.
  - reflexivity.
Defined.

Section ArrayBytes.
Variable native : byteorder.

Lemma uint16_bytes_of_bytes (b0 b1 : byte) :
  uint16_bytes native (uint16_of_bytes native b0 b1) = [b0; b1]
  /\ 0 <= uint16_of_bytes native b0 b1 < 65536.
Proof.
  pose proof (Z_of_byte_range b0). pose proof (Z_of_byte_range b1).
  unfold uint16_bytes, uint16_of_bytes. destruct native; split; try lia;
    f_equal; [|f_equal| |f_equal]; apply byte_of_Z_eq;
    Z.to_euclidean_division_equations; lia.
Qed.

Lemma uint16_items_bytes (k : nat) :
  forall buf : list byte,
    length buf = (2 * k)%nat ->
    flat_map (uint16_bytes native) (uint16_items native buf) = buf
    /\ Forall (fun v => 0 <= v < 65536) (uint16_items native buf)
    /\ length (uint16_items native buf) = k.
Proof.
  induction k as [|k IH]; intros buf Hlen.
  - destruct buf; [|discriminate]. simpl. auto.
  - destruct buf as [|b0 [|b1 buf]]; try (simpl in Hlen; lia).
    destruct (IH buf) as [Hbytes [Hrange Hcount]]; [simpl in Hlen; lia|].
    destruct (uint16_bytes_of_bytes b0 b1) as [Hpair Hv].
    cbn [uint16_items flat_map length]. rewrite Hpair, Hbytes, Hcount.
    repeat split; auto.
Qed.
End ArrayBytes.

(** X2.  [tobytes] and [np.frombuffer(..., dtype=np.uint16)] undo each
    other in either byte order: the bytes of unsigned 16-bit items read back
    as the items, and a buffer of even length reads as items in 0 .. 65535,
    half as many as bytes, whose bytes are the buffer; a buffer of odd
    length is refused. *)
Theorem array_bytes_both_ways :
  forall (native : byteorder) (items : list Z) (buf odd : list byte),
    Forall (fun v => 0 <= v < 65536) items ->
    Nat.even (length buf) = true ->
    Nat.even (length odd) = false ->
    frombuffer native (flat_map (uint16_bytes native) items) = Ok items
    /\ (exists items', frombuffer native buf = Ok items'
                       /\ flat_map (uint16_bytes native) items' = buf
                       /\ Forall (fun v => 0 <= v < 65536) items'
                       /\ (2 * length items' = length buf)%nat)
    /\ frombuffer native odd = Raise (ValueError_buffer (length odd)).
Proof.
  intros native items buf odd Hitems Heven Hodd. split; [|split].
  - unfold frombuffer.
    pose proof (tobytes_length native {| shape := (0, 0)%nat; cells := items |}) as Hlen.
    unfold tobytes in Hlen. simpl in Hlen. rewrite Hlen.
    replace (Nat.even (length items + (length items + 0))) with true.
    2:{ symmetry. apply Nat.even_spec. exists (length items). lia. }
    rewrite uint16_items_tobytes by assumption. reflexivity.
  - unfold frombuffer. rewrite Heven.
    apply Nat.even_spec in Heven. destruct Heven as [k Hk].
    destruct (@uint16_items_bytes native k buf Hk) as [Hbytes [Hrange Hcount]].
    exists (uint16_items native buf). repeat split; auto. lia.
  - unfold frombuffer. rewrite Hodd. reflexivity.
Qed.

Lemma array_bytes_both_ways_witness :
  frombuffer big (flat_map (uint16_bytes big) [0; 2047; 65535]) = Ok [0; 2047; 65535]
  /\ (exists items', frombuffer big [x07; xff; x00; x2a] = Ok items'
                     /\ flat_map (uint16_bytes big) items' = [x07; xff; x00; x2a]
                     /\ Forall (fun v => 0 <= v < 65536) items'
                     /\ (2 * length items' = length [x07; xff; x00; x2a])%nat)
  /\ frombuffer big [x07; xff; x00] = Raise (ValueError_buffer (length [x07; xff; x00])).
Proof.
  apply (@array_bytes_both_ways big [0; 2047; 65535] [x07; xff; x00; x2a] [x07; xff; x00]).
  - repeat constructor; lia.
  - reflexivity.
  - reflexivity.
Defined.

(** ** What the server accepts *)

Section Decoding.
Variable native : byteorder.
Variable decompress : list byte -> result (list byte).

Lemma decode_frame_inv (payload : list byte) (depth_map : ndarray) :
  decode_frame native decompress payload = Ok depth_map ->
  well_shaped depth_map /\ decompress payload = Ok (tobytes native depth_map).
Proof.
  unfold decode_frame. destruct (decompress payload) as [b|e]; [|discriminate].
  simpl bind. unfold frombuffer.
  destruct (Nat.even (length b)) eqn:Heven; [|discriminate].
  simpl bind. unfold reshape.
  destruct (Z.eqb_spec (Z.of_nat (length (uint16_items native b)))
              (Z.of_nat FRAME_HEIGHT * Z.of_nat FRAME_WIDTH)) as [Hcount|]; [|discriminate].
  intros H. injection H as <-.
  apply Nat.even_spec in Heven. destruct Heven as [k Hk].
  destruct (@uint16_items_bytes native k b Hk) as [Hbytes [Hrange _]].
  unfold well_shaped, tobytes. simpl. rewrite Hbytes. auto.
Qed.

Lemma decode_frame_ok (payload : list byte) (depth_map : ndarray) :
  well_shaped depth_map ->
  decompress payload = Ok (tobytes native depth_map) ->
  decode_frame native decompress payload = Ok depth_map.
Proof.
  intros [Hshape [Hlen Hrange]] Hb. unfold decode_frame. rewrite Hb. simpl bind.
  apply reshape_frombuffer_tobytes; assumption.
Qed.

Lemma decode_frame_wrong_size (payload b : list byte) :
  decompress payload = Ok b ->
  Z.of_nat (length b) <> 2 * (480 * 640) ->
  decode_frame native decompress payload = Raise (ValueError_buffer (length b))
  \/ decode_frame native decompress payload
     = Raise (ValueError_reshape (length (uint16_items native b))).
Proof.
  intros Hb Hsize. unfold decode_frame. rewrite Hb. simpl bind. unfold frombuffer.
  destruct (Nat.even (length b)) eqn:Heven; [|left; reflexivity].
  right. simpl bind. unfold reshape.
  destruct (Z.eqb_spec (Z.of_nat (length (uint16_items native b)))
              (Z.of_nat FRAME_HEIGHT * Z.of_nat FRAME_WIDTH)) as [Hcount|]; [|reflexivity].
  exfalso. apply Hsize.
  apply Nat.even_spec in Heven. destruct Heven as [k Hk].
  destruct (@uint16_items_bytes native k b Hk) as [_ [_ Hitems]].
  rewrite Hitems in Hcount. rewrite Hk, Nat2Z.inj_mul, Hcount. reflexivity.
Qed.
End Decoding.

(** X3.  The server decodes a payload into a frame exactly when the payload
    decompresses to the bytes of a 480 x 640 grid of unsigned 16-bit values,
    and then the frame is that grid: every frame that reaches the queue has
    307200 cells in 0 .. 65535. *)
Theorem decoded_frames_are_grids :
  forall (native : byteorder) (decompress : list byte -> result (list byte))
         (payload : list byte) (depth_map : ndarray),
    decode_frame native decompress payload = Ok depth_map
    <-> (shape depth_map = (FRAME_HEIGHT, FRAME_WIDTH)
         /\ Z.of_nat (length (cells depth_map)) = 480 * 640
         /\ Forall (fun v => 0 <= v < 65536) (cells depth_map))
        /\ decompress payload = Ok (tobytes native depth_map).
Proof.
  intros native decompress payload depth_map. split.
  - apply decode_frame_inv.
  - intros [Hshape Hb]. apply decode_frame_ok; assumption.
Qed.

(** ** The stream, not its segments *)

Lemma recvall_short (conn : Conn) (n : nat) :
  (length (pending conn) < n)%nat ->
  exists conn', recvall conn n = Some (None, conn').
Proof.
  intros Hshort.
  destruct (recvall_spec conn n) as [[data [conn' [Hrun [Hn Hcat]]]]|[conn' [Hrun _]]].
  - rewrite Hcat, length_app in Hshort. lia.
  - eauto.
Qed.

Lemma recvall_same_stream (c1 c2 : Conn) (n : nat) :
  pending c1 = pending c2 ->
  (exists data c1' c2',
      recvall c1 n = Some (Some data, c1') /\ recvall c2 n = Some (Some data, c2')
      /\ pending c1' = pending c2')
  \/ (exists c1' c2', recvall c1 n = Some (None, c1') /\ recvall c2 n = Some (None, c2')).
Proof.
  intros Hsame.
  destruct (recvall_spec c1 n) as [[d1 [c1' [Hr1 [Hn1 Hcat1]]]]|[c1' [Hr1 Hshort1]]];
    destruct (recvall_spec c2 n) as [[d2 [c2' [Hr2 [Hn2 Hcat2]]]]|[c2' [Hr2 Hshort2]]].
  - left. rewrite Hsame, Hcat2 in Hcat1.
    destruct (@app_eq_length _ d2 (pending c2') d1 (pending c1') Hcat1) as [-> Hrest];
      [lia|].
    exists d1, c1', c2'. auto.
  - rewrite Hsame in Hcat1. rewrite Hcat1, length_app in Hshort2. lia.
  - rewrite <- Hsame in Hcat2. rewrite Hcat2, length_app in Hshort1. lia.
  - right. eauto.
Qed.

Section SameStream.
Variable native : byteorder.
Variable decompress : list byte -> result (list byte).
Variable exn_text : exn -> string.

Lemma read_frame_same_stream (c1 c2 : Conn) :
  pending c1 = pending c2 ->
  match read_frame native decompress c1, read_frame native decompress c2 with
  | Some Stop_reading, Some Stop_reading => True
  | Some (Failed e1), Some (Failed e2) => e1 = e2
  | Some (Frame d1 c1'), Some (Frame d2 c2') => d1 = d2 /\ pending c1' = pending c2'
  | _, _ => False
  end.
Proof.
  intros Hsame. unfold read_frame.
  destruct (@recvall_same_stream c1 c2 4%nat Hsame)
    as [[raw [c1' [c2' [Hr1 [Hr2 Hrest]]]]]|[c1' [c2' [Hr1 Hr2]]]];
    rewrite Hr1, Hr2; [|exact I].
  destruct raw as [|b3 raw]; [exact I|].
  destruct (struct_unpack_I (b3 :: raw)) as [data_size|e]; [|reflexivity].
  destruct (@recvall_same_stream c1' c2' (Z.to_nat data_size) Hrest)
    as [[data [c1'' [c2'' [Hs1 [Hs2 Hrest']]]]]|[c1'' [c2'' [Hs1 Hs2]]]];
    rewrite Hs1, Hs2; [|exact I].
  destruct data as [|b data]; [exact I|].
  destruct (decode_frame native decompress (b :: data)); auto.
Qed.

Lemma connection_loop_same_stream (fuel : nat) :
  forall (c1 c2 : Conn) (w : World),
    pending c1 = pending c2 ->
    connection_loop native decompress fuel c1 w
    = connection_loop native decompress fuel c2 w.
Proof.
  induction fuel as [|fuel IH]; intros c1 c2 w Hsame; [reflexivity|].
  simpl. destruct (stop_event w); [reflexivity|].
  pose proof (@read_frame_same_stream c1 c2 Hsame) as Hread.
  destruct (read_frame native decompress c1) as [[|e1|d1 c1']|];
    destruct (read_frame native decompress c2) as [[|e2|d2 c2']|];
    try contradiction; try reflexivity.
  - subst e2. reflexivity.
  - destruct Hread as [-> Hrest]. apply IH. exact Hrest.
Qed.
End SameStream.

(** X4.  The server sees the byte stream, not the segments it arrives in:
    two connections that deliver the same bytes, cut differently, leave the
    same world and the same outcome, both for the connection loop and for
    the whole pass of the accept loop. *)
Theorem segments_do_not_matter :
  forall (native : byteorder) (decompress : list byte -> result (list byte))
         (exn_text : exn -> string) (c1 c2 : Conn) (w : World),
    pending c1 = pending c2 ->
    handle_connection native decompress c1 w = handle_connection native decompress c2 w
    /\ accept_pass native decompress exn_text (Ok c1) w
       = accept_pass native decompress exn_text (Ok c2) w.
Proof.
  intros native decompress exn_text c1 c2 w Hsame.
  assert (Hloop : forall w0, handle_connection native decompress c1 w0
                             = handle_connection native decompress c2 w0).
  { intros w0. unfold handle_connection. rewrite Hsame.
    apply connection_loop_same_stream. exact Hsame. }
  split; [apply Hloop|]. unfold accept_pass. rewrite Hloop. reflexivity.
Qed.

Lemma segments_do_not_matter_witness :
  let w := initial_world (Some registered_scene) "12:00:00" (F64.of_Z 0) in
  let c1 : Conn := [[x00]; [x00; x00; x02; x78]; [x2a]] in
  let c2 : Conn := [[x00; x00; x00; x02; x78; x2a]] in
  handle_connection little stored_decompress c1 w
  = handle_connection little stored_decompress c2 w
  /\ accept_pass little stored_decompress (fun _ => EmptyString) (Ok c1) w
     = accept_pass little stored_decompress (fun _ => EmptyString) (Ok c2) w.
Proof.
  intros w c1 c2.
  apply (@segments_do_not_matter little stored_decompress (fun _ => EmptyString) c1 c2 w).
  reflexivity.
Defined.

(** ** Messages cut short and payloads that do not decode *)

(** X5.  A peer that closes in the middle of a message, before the four
    bytes of the prefix are complete or before the payload the prefix
    announces is complete, ends its connection only: nothing is published,
    the log gets the two lines of a connection, and the accept loop goes on
    with the next outcome of [s.accept()]. *)
Theorem truncated_message_ends_connection_only :
  forall (native : byteorder) (decompress : list byte -> result (list byte))
         (exn_text : exn -> string) (conn : Conn) (w : World)
         (later : list (result Conn)),
    stop_event w = false ->
    ((length (pending conn) < 4)%nat
     \/ exists header part n,
          pending conn = header ++ part
          /\ struct_unpack_I header = Ok n
          /\ (length part < Z.to_nat n)%nat) ->
    read_frame native decompress conn = Some Stop_reading
    /\ accept_pass native decompress exn_text (Ok conn) w
       = Some (Continue, do_add_log "Client disconnected" (do_add_log "Client connected" w))
    /\ accept_loop native decompress exn_text (Ok conn :: later) w
       = accept_loop native decompress exn_text later
           (do_add_log "Client disconnected" (do_add_log "Client connected" w)).
Proof.
  intros native decompress exn_text conn w later Hstop Hcut.
  assert (Hread : read_frame native decompress conn = Some Stop_reading).
  { unfold read_frame. destruct Hcut as [Hshort|[header [part [n [Hcat [Hn Hshort]]]]]].
    - destruct (recvall_short conn Hshort) as [conn' Hrun]. rewrite Hrun. reflexivity.
    - destruct (@recvall_exact conn 4 header part Hcat (struct_unpack_I_length _ Hn))
        as [conn1 [Hrun Hrest]].
      rewrite Hrun. destruct header as [|b3 header]; [discriminate|].
      rewrite Hn. rewrite <- Hrest in Hshort.
      destruct (recvall_short conn1 Hshort) as [conn2 Hrun2]. rewrite Hrun2. reflexivity. }
  assert (Hpass : accept_pass native decompress exn_text (Ok conn) w
                  = Some (Continue,
                          do_add_log "Client disconnected" (do_add_log "Client connected" w))).
  { unfold accept_pass, handle_connection. simpl. rewrite Hstop, Hread. reflexivity. }
  split; [exact Hread|]. split; [exact Hpass|].
  simpl accept_loop. rewrite Hstop, Hpass. reflexivity.
Qed.

Lemma truncated_message_ends_connection_only_witness :
  let w := initial_world (Some registered_scene) "12:00:00" (F64.of_Z 0) in
  let conn : Conn := [[x00; x00]; [x00; x05; x78; x01]] in
  read_frame little stored_decompress conn = Some Stop_reading
  /\ accept_pass little stored_decompress (fun _ => EmptyString) (Ok conn) w
     = Some (Continue, do_add_log "Client disconnected" (do_add_log "Client connected" w))
  /\ accept_loop little stored_decompress (fun _ => EmptyString)
       [Ok conn; Raise socket_timeout] w
     = accept_loop little stored_decompress (fun _ => EmptyString) [Raise socket_timeout]
         (do_add_log "Client disconnected" (do_add_log "Client connected" w)).
Proof.
  intros w conn.
  apply (@truncated_message_ends_connection_only little stored_decompress
           (fun _ => EmptyString) conn w [Raise socket_timeout]).
  - reflexivity.
  - right. exists [x00; x00; x00; x05], [x78; x01], 5. repeat split. simpl. lia.
Defined.

(** X6.  A complete message whose payload does not decode (the decompressor
    refuses it, or the decompressed bytes are not a 480 x 640 grid) stops
    the server for good: the queue is left as it was, the log gets "Client
    connected", "Server error: ..." and "Client disconnected", the accept
    loop is left whatever connections would follow, and [server_run] ends
    with "Server has stopped.". *)
Theorem decode_error_stops_server :
  forall (native : byteorder) (decompress : list byte -> result (list byte))
         (exn_text : exn -> string) (socket_path : string)
         (conn : Conn) (w : World) (header payload rest : list byte) (e : exn)
         (later : list (result Conn)),
    stop_event w = false ->
    pending conn = header ++ payload ++ rest ->
    struct_unpack_I header = Ok (Z.of_nat (length payload)) ->
    payload <> [] ->
    decode_frame native decompress payload = Raise e ->
    e <> socket_timeout ->
    let stopped (w0 : World) :=
      do_add_log "Client disconnected"
        (do_add_log ("Server error: " ++ exn_text e) (do_add_log "Client connected" w0)) in
    accept_pass native decompress exn_text (Ok conn) w = Some (Break, stopped w)
    /\ frame_queue (stopped w) = frame_queue w
    /\ accept_loop native decompress exn_text (Ok conn :: later) w = Some (Ended, stopped w)
    /\ server_run native decompress exn_text socket_path (Ok conn :: later) w
       = Some (Ended,
               do_add_log "Server has stopped."
                 (stopped (do_add_log ("Server listening on socket: " ++ socket_path) w))).
Proof.
  intros native decompress exn_text socket_path conn w header payload rest e later
         Hstop Hcat Hn Hpayload Hdecode He stopped.
  assert (Hread : read_frame native decompress conn = Some (Failed e)).
  { unfold read_frame.
    destruct (@recvall_exact conn 4 header (payload ++ rest) Hcat
                (struct_unpack_I_length _ Hn)) as [conn1 [Hrun Hrest]].
    rewrite Hrun. destruct header as [|b3 header]; [discriminate|].
    rewrite Hn, Nat2Z.id.
    destruct (@recvall_exact conn1 (length payload) payload rest Hrest eq_refl)
      as [conn2 [Hrun2 _]].
    rewrite Hrun2. destruct payload as [|b payload]; [contradiction|].
    rewrite Hdecode. reflexivity. }
  assert (Hpass : forall w0, stop_event w0 = false ->
             accept_pass native decompress exn_text (Ok conn) w0 = Some (Break, stopped w0)).
  { intros w0 Hstop0. unfold accept_pass, handle_connection. simpl.
    rewrite Hstop0, Hread. destruct e; try reflexivity. contradiction. }
  assert (Hloop : forall w0, stop_event w0 = false ->
             accept_loop native decompress exn_text (Ok conn :: later) w0
             = Some (Ended, stopped w0)).
  { intros w0 Hstop0. simpl accept_loop. rewrite Hstop0, (Hpass w0 Hstop0). reflexivity. }
  split; [apply Hpass; exact Hstop|]. split; [reflexivity|].
  split; [apply Hloop; exact Hstop|].
  unfold server_run. rewrite Hloop by exact Hstop. reflexivity.
Qed.

Lemma decode_error_stops_server_witness :
  let w := initial_world (Some registered_scene) "12:00:00" (F64.of_Z 0) in
  let conn : Conn := [[x00; x00; x00; x03; x78; x00; x00]] in
  let e := ValueError_reshape 1 in
  let stopped (w0 : World) :=
    do_add_log "Client disconnected"
      (do_add_log ("Server error: " ++ "size") (do_add_log "Client connected" w0)) in
  accept_pass little stored_decompress (fun _ => "size"%string) (Ok conn) w
  = Some (Break, stopped w)
  /\ frame_queue (stopped w) = frame_queue w
  /\ accept_loop little stored_decompress (fun _ => "size"%string) [Ok conn] w
     = Some (Ended, stopped w)
  /\ server_run little stored_decompress (fun _ => "size"%string) "/tmp/server.sock"
       [Ok conn] w
     = Some (Ended,
             do_add_log "Server has stopped."
               (stopped (do_add_log ("Server listening on socket: " ++ "/tmp/server.sock") w))).
Proof.
  intros w conn e stopped.
  apply (@decode_error_stops_server little stored_decompress (fun _ => "size"%string)
           "/tmp/server.sock" conn w [x00; x00; x00; x03] [x78; x00; x00] [] e []).
  - reflexivity.
  - reflexivity.
  - reflexivity.
  - discriminate.
  - reflexivity.
  - discriminate.
Defined.

(** ** What the worker leaves alone *)

Lemma worker_effect_refl (w : World) : worker_effect w w.
Proof.
  unfold worker_effect, same_but_log_and_queue. repeat split; auto.
  - destruct w; reflexivity.
  - lia.
Qed.

Lemma worker_effect_trans (w1 w2 w3 : World) :
  worker_effect w1 w2 -> worker_effect w2 w3 -> worker_effect w1 w3.
Proof.
  unfold worker_effect, same_but_log_and_queue.
  intros [Hs1 [Hl1 [Hq1 Hf1]]] [Hs2 [Hl2 [Hq2 Hf2]]]. repeat split; auto.
  - transitivity (set_log_messages (log_messages w3)
                    (set_frame_queue (frame_queue w3) w2)); [exact Hs2|].
    rewrite Hs1. reflexivity.
  - lia.
Qed.

Lemma worker_effect_add_log (msg : string) (w : World) :
  worker_effect w (do_add_log msg w).
Proof.
  unfold worker_effect, same_but_log_and_queue.
  split; [reflexivity|].
  split; [|split; [unfold do_add_log, set_log_messages; cbn [frame_queue]; lia|auto]].
  intros H. unfold do_add_log, add_log. simpl.
  apply deque_append_bound. exact H.
Qed.

Lemma worker_effect_publish (depth_map : ndarray) (w : World) :
  well_shaped depth_map ->
  worker_effect w (set_frame_queue (publish (frame_queue w) depth_map) w).
Proof.
  intros Hshaped. rewrite publish_single.
  unfold worker_effect, same_but_log_and_queue.
  split; [reflexivity|]. split; [auto|].
  split; [unfold set_frame_queue; cbn [frame_queue length]; lia|].
  intros _. simpl. constructor; [exact Hshaped|constructor].
Qed.

Section WorkerEffect.
Variable native : byteorder.
Variable decompress : list byte -> result (list byte).
Variable exn_text : exn -> string.
Variable socket_path : string.

Lemma read_frame_well_shaped (conn conn' : Conn) (depth_map : ndarray) :
  read_frame native decompress conn = Some (Frame depth_map conn') ->
  well_shaped depth_map.
Proof.
  unfold read_frame.
  destruct (recvall conn 4) as [[[[|b3 raw]|] conn1]|]; try discriminate.
  destruct (struct_unpack_I (b3 :: raw)) as [data_size|e]; [|discriminate].
  destruct (recvall conn1 (Z.to_nat data_size)) as [[[[|b data]|] conn2]|];
    try discriminate.
  destruct (decode_frame native decompress (b :: data)) as [dm|e] eqn:Hdecode;
    [|discriminate].
  intros H. injection H as <- _.
  apply (decode_frame_inv _ _ _ Hdecode).
Qed.

Lemma connection_loop_effect (fuel : nat) :
  forall (conn : Conn) (w : World) r w',
    connection_loop native decompress fuel conn w = Some (r, w') ->
    worker_effect w w'.
Proof.
  induction fuel as [|fuel IH]; intros conn w r w' H; [discriminate|].
  simpl in H. destruct (stop_event w).
  { injection H as _ <-. apply worker_effect_refl. }
  destruct (read_frame native decompress conn) as [[|e|depth_map conn1]|] eqn:Hread;
    try discriminate; try (injection H as _ <-; apply worker_effect_refl).
  eapply worker_effect_trans; [|exact (IH _ _ _ _ H)].
  apply worker_effect_publish. exact (read_frame_well_shaped _ Hread).
Qed.

Lemma accept_pass_effect (accepted : result Conn) (w : World) control w' :
  accept_pass native decompress exn_text accepted w = Some (control, w') ->
  worker_effect w w'.
Proof.
  unfold accept_pass. destruct accepted as [conn|e].
  - destruct (handle_connection native decompress conn (do_add_log "Client connected" w))
      as [[r w1]|] eqn:Hloop; [|discriminate].
    apply connection_loop_effect in Hloop.
    assert (Hw1 : worker_effect w w1).
    { eapply worker_effect_trans; [apply worker_effect_add_log|exact Hloop]. }
    intros H. destruct r as [u|e].
    + injection H as _ <-.
      eapply worker_effect_trans; [exact Hw1|apply worker_effect_add_log].
    + assert (Hend : forall w2, worker_effect w1 w2 ->
                 worker_effect w (do_add_log "Client disconnected" w2)).
      { intros w2 H2. eapply worker_effect_trans; [exact Hw1|].
        eapply worker_effect_trans; [exact H2|apply worker_effect_add_log]. }
      destruct e; injection H as _ <-;
        (apply Hend; first [apply worker_effect_refl | apply worker_effect_add_log]).
  - intros H.
    assert (Hend : forall w2, worker_effect w w2 ->
               worker_effect w (do_add_log "Client disconnected" w2)).
    { intros w2 H2. eapply worker_effect_trans; [exact H2|apply worker_effect_add_log]. }
    destruct e; injection H as _ <-;
      (apply Hend; first [apply worker_effect_refl | apply worker_effect_add_log]).
Qed.

Lemma accept_loop_effect (accepts : list (result Conn)) :
  forall (w : World) state w',
    accept_loop native decompress exn_text accepts w = Some (state, w') ->
    worker_effect w w'.
Proof.
  induction accepts as [|accepted rest IH]; intros w state w' H; simpl in H;
    destruct (stop_event w);
    try (injection H as _ <-; apply worker_effect_refl).
  destruct (accept_pass native decompress exn_text accepted w) as [[control w1]|] eqn:Hpass;
    [|discriminate].
  apply accept_pass_effect in Hpass.
  destruct control.
  - eapply worker_effect_trans; [exact Hpass|exact (IH _ _ _ H)].
  - injection H as _ <-. exact Hpass.
Qed.

Lemma server_run_effect (accepts : list (result Conn)) (w : World) :
  exists state w',
    server_run native decompress exn_text socket_path accepts w = Some (state, w')
    /\ worker_effect w w'.
Proof.
  unfold server_run.
  destruct (accept_loop_total native decompress exn_text accepts
              (do_add_log ("Server listening on socket: " ++ socket_path) w))
    as [state [w1 Hloop]].
  rewrite Hloop. apply accept_loop_effect in Hloop.
  assert (Hw1 : worker_effect w w1).
  { eapply worker_effect_trans; [apply worker_effect_add_log|exact Hloop]. }
  destruct state; eexists _, _; (split; [reflexivity|]); auto.
  eapply worker_effect_trans; [exact Hw1|apply worker_effect_add_log].
Qed.
End WorkerEffect.

(** X7.  Whatever the clients send and however [s.accept()] turns out,
    [server_run] comes to a result that differs from the world it started in
    only in the log ring and the frame queue: handle, stop signal, timer,
    scene, mesh and counters are never written by the worker; the ring keeps
    its bound of 10, the queue never holds more than one frame (or what it
    held at the start), and every frame in it is a 480 x 640 grid. *)
Theorem server_run_touches_log_and_queue_only :
  forall (native : byteorder) (decompress : list byte -> result (list byte))
         (exn_text : exn -> string) (socket_path : string)
         (accepts : list (result Conn)) (w : World),
    (length (log_messages w) <= 10)%nat ->
    Forall well_shaped (frame_queue w) ->
    exists state w',
      server_run native decompress exn_text socket_path accepts w = Some (state, w')
      /\ w' = set_log_messages (log_messages w') (set_frame_queue (frame_queue w') w)
      /\ (length (log_messages w') <= 10)%nat
      /\ (length (frame_queue w') <= Nat.max 1 (length (frame_queue w)))%nat
      /\ Forall well_shaped (frame_queue w').
Proof.
  intros native decompress exn_text socket_path accepts w Hlog Hqueue.
  destruct (server_run_effect native decompress exn_text socket_path accepts w)
    as [state [w' [Hrun [Hsame [Hbound [Hlen Hshaped]]]]]].
  exists state, w'. repeat split; auto.
Qed.

Lemma server_run_touches_log_and_queue_only_witness :
  let w := initial_world (Some registered_scene) "12:00:00" (F64.of_Z 0) in
  let accepts : list (result Conn) :=
    [Raise socket_timeout; Ok [[x00; x00; x00; x03; x78; x00; x00]]] in
  exists state w',
    server_run little stored_decompress (fun _ => EmptyString) "/tmp/server.sock" accepts w
    = Some (state, w')
    /\ w' = set_log_messages (log_messages w') (set_frame_queue (frame_queue w') w)
    /\ (length (log_messages w') <= 10)%nat
    /\ (length (frame_queue w') <= Nat.max 1 (length (frame_queue w)))%nat
    /\ Forall well_shaped (frame_queue w').
Proof.
  intros w accepts.
  apply (@server_run_touches_log_and_queue_only little stored_decompress
           (fun _ => EmptyString) "/tmp/server.sock" accepts w).
  - simpl. lia.
  - constructor.
Defined.

(** ** From the client's loop to the queue *)

Lemma last_nonempty (A : Type) (l : list A) :
  forall (y d d' : A), last (y :: l) d = last (y :: l) d'.
Proof.
  induction l as [|z l IH]; intros y d d'; [reflexivity|].
  change (last (y :: z :: l) d) with (last (z :: l) d).
  change (last (y :: z :: l) d') with (last (z :: l) d').
  apply IH.
Qed.

Lemma last_cons_default (A : Type) (x d : A) (l : list A) :
  last (x :: l) d = last l x.
Proof.
  destruct l as [|y l]; [reflexivity|].
  change (last (x :: y :: l) d) with (last (y :: l) d).
  apply last_nonempty.
Qed.

Lemma published_cons (F : ndarray) (frames : list ndarray) (w : World) :
  published frames (set_frame_queue [F] w) = published (F :: frames) w.
Proof.
  destruct frames as [|G frames]; [reflexivity|].
  unfold published. rewrite last_cons_default. reflexivity.
Qed.

Section ClientToQueue.
Variable native : byteorder.
Variable compress : list byte -> list byte.
Variable decompress : list byte -> result (list byte).
Hypothesis decompress_compress : forall b, decompress (compress b) = Ok b.
Hypothesis compress_not_empty : forall b, compress b <> [].

(** The frames that went out in full are published in turn, and the loop
    ends where the stream ends. *)
Lemma connection_loop_stream (frames : list ndarray) :
  forall (conn : Conn) (w : World) (fuel : nat) (tail : list byte),
    Forall (sendable native compress) frames ->
    stop_event w = false ->
    (forall c, pending c = tail -> read_frame native decompress c = Some Stop_reading) ->
    pending conn = snd (send_loop native compress (map sent frames)) ++ tail ->
    (length frames < fuel)%nat ->
    connection_loop native decompress fuel conn w = Some (Ok tt, published frames w).
Proof.
  induction frames as [|F frames IH]; intros conn w fuel tail Hsend Hstop Htail Hpending Hfuel.
  - destruct fuel as [|fuel]; [simpl in Hfuel; lia|].
    simpl. rewrite Hstop, (Htail conn Hpending). reflexivity.
  - inversion Hsend as [|F' frames' HF Hrest]; subst.
    destruct HF as [Hshape [Hlen [Hrange Hsize]]].
    destruct (@frame_roundtrip native compress decompress decompress_compress
                compress_not_empty F Hshape Hlen Hrange Hsize) as [message [Hmsg Hread]].
    assert (Hstep : snd (send_loop native compress (map sent (F :: frames)))
                    = message ++ snd (send_loop native compress (map sent frames))).
    { cbn [map send_loop sent get_depth_frame fst]. rewrite Hmsg.
      destruct (send_loop native compress (map sent frames)). reflexivity. }
    rewrite Hstep, <- app_assoc in Hpending.
    destruct (Hread conn _ Hpending) as [conn' [Hframe Hpending']].
    destruct fuel as [|fuel]; [simpl in Hfuel; lia|].
    rewrite (@connection_loop_frame native decompress fuel conn conn' w F Hstop Hframe).
    rewrite <- published_cons.
    apply IH with (tail := tail); auto.
    simpl in Hfuel. lia.
Qed.

Lemma send_loop_app (frames : list ndarray)
      (ending : list (option (ndarray * Z) * sendall_result)) :
  Forall (sendable native compress) frames ->
  send_loop native compress (map sent frames ++ ending)
  = (fst (send_loop native compress ending),
     snd (send_loop native compress (map sent frames))
     ++ snd (send_loop native compress ending))
  /\ (length frames <= length (snd (send_loop native compress (map sent frames))))%nat.
Proof.
  induction 1 as [|F frames HF _ IH].
  - simpl. destruct (send_loop native compress ending). split; [reflexivity|lia].
  - destruct HF as [Hshape [Hlen [Hrange Hsize]]].
    destruct (@struct_pack_I_ok (Z.of_nat (length (compress (tobytes native F)))))
      as [header Hpack]; [lia|].
    assert (Hmsg : frame_message native compress F
                   = Ok (header ++ compress (tobytes native F))).
    { unfold frame_message. rewrite Hpack. reflexivity. }
    destruct IH as [IH Hcount].
    cbn [map app send_loop sent get_depth_frame fst]. rewrite Hmsg, IH.
    destruct (send_loop native compress (map sent frames)) as [how stream].
    cbn [fst snd] in *. rewrite <- !app_assoc. split; [reflexivity|].
    rewrite !length_app, (struct_pack_I_length _ Hpack). cbn [length]. lia.
Qed.

Lemma ends_stream_cut (ending : list (option (ndarray * Z) * sendall_result)) :
  ends_stream native compress ending ->
  snd (send_loop native compress ending) = []
  /\ fst (send_loop native compress ending) <> Sending
  /\ fst (send_loop native compress ending) <> Reconnect.
Proof.
  intros Hend.
  destruct ending as [|[[[F ts]|] outcome] rest]; simpl in *;
    [contradiction| |repeat split; discriminate].
  destruct Hend as [e He]. rewrite He. repeat split; discriminate.
Qed.

Lemma read_frame_of_closed (c : Conn) :
  pending c = [] -> read_frame native decompress c = Some Stop_reading.
Proof.
  intros Hnil. unfold read_frame.
  destruct (@recvall_short c 4) as [c' Hrun]; [rewrite Hnil; simpl; lia|].
  rewrite Hrun. reflexivity.
Qed.
End ClientToQueue.

(** X8.  What the client's send loop puts on a connection and what the
    server makes of it: when the frames of a list went out in full, one
    after the other, and the client's process then ends (the camera is lost,
    or a message cannot be built and [struct.error] leaves [main]), so that
    the client's end of the connection is closed, the send loop is left for
    good, not for a reconnection, and the server's connection loop, reading
    the stream to its end, finishes normally with the last of these frames
    alone in the queue, or with the queue untouched when no frame went out. *)
Theorem client_stream_leaves_last_frame :
  forall (native : byteorder)
         (compress : list byte -> list byte)
         (decompress : list byte -> result (list byte))
         (frames : list ndarray)
         (ending : list (option (ndarray * Z) * sendall_result))
         (conn : Conn) (w : World),
    (forall b, decompress (compress b) = Ok b) ->
    (forall b, compress b <> []) ->
    Forall (sendable native compress) frames ->
    ends_stream native compress ending ->
    stop_event w = false ->
    pending conn = snd (send_loop native compress (map sent frames ++ ending)) ->
    handle_connection native decompress conn w = Some (Ok tt, published frames w)
    /\ fst (send_loop native compress (map sent frames ++ ending)) <> Sending
    /\ fst (send_loop native compress (map sent frames ++ ending)) <> Reconnect.
Proof.
  intros native compress decompress frames ending conn w
         Hinv Hne Hframes Hending Hstop Hpending.
  destruct (@send_loop_app native compress frames ending Hframes) as [Happ Hcount].
  destruct (@ends_stream_cut native compress ending Hending) as [Hnil [Hs Hr]].
  rewrite Happ in *. cbn [fst snd] in *. split; [|split; assumption].
  unfold handle_connection.
  apply (@connection_loop_stream native compress decompress Hinv Hne frames conn w
           (S (length (pending conn))) (snd (send_loop native compress ending)));
    auto.
  - intros c Hc. apply read_frame_of_closed. rewrite Hc. exact Hnil.
  - rewrite Hpending, length_app. lia.
Qed.

Lemma uniform_frame_sendable (native : byteorder) (v : Z) :
  0 <= v < 65536 ->
  sendable native stored_compress
    {| shape := (FRAME_HEIGHT, FRAME_WIDTH);
       cells := repeat v (FRAME_HEIGHT * FRAME_WIDTH) |}.
Proof.
  intros Hv. unfold sendable. cbn [shape cells].
  split; [reflexivity|]. split; [rewrite repeat_length; apply Nat2Z.inj_mul|].
  split.
  - apply Forall_forall. intros x Hx. apply repeat_spec in Hx. subst x. exact Hv.
  - unfold stored_compress. cbn [length]. rewrite tobytes_length.
    cbn [cells]. rewrite repeat_length.
    rewrite Nat2Z.inj_succ, !Nat2Z.inj_mul. reflexivity.
Qed.

Lemma client_stream_leaves_last_frame_witness :
  let w := initial_world (Some registered_scene) "12:00:00" (F64.of_Z 0) in
  let frames := [near_frame; far_frame] in
  let ending := [(None, Sent); (Some (near_frame, 7), Sent)] in
  let conn : Conn := [snd (send_loop little stored_compress (map sent frames ++ ending))] in
  handle_connection little stored_decompress conn w = Some (Ok tt, published frames w)
  /\ fst (send_loop little stored_compress (map sent frames ++ ending)) <> Sending
  /\ fst (send_loop little stored_compress (map sent frames ++ ending)) <> Reconnect.
Proof.
  intros w frames ending conn.
  apply (@client_stream_leaves_last_frame little stored_compress stored_decompress
           frames ending conn w).
  - intros b. reflexivity.
  - intros b. discriminate.
  - apply Forall_cons; [apply (@uniform_frame_sendable little 500); lia|].
    apply Forall_cons; [apply (@uniform_frame_sendable little 2047); lia|].
    apply Forall_nil.
  - exact I.
  - reflexivity.
  - unfold conn, pending. cbn [concat]. apply app_nil_r.
Defined.

(** ** The renderer's tick and the log view *)

Lemma nth_error_last (A : Type) (l : list A) (d : A) :
  l <> [] -> nth_error l (length l - 1) = Some (last l d).
Proof.
  induction l as [|x l IH]; intros Hne; [contradiction|].
  destruct l as [|y l]; [reflexivity|].
  change (last (x :: y :: l) d) with (last (y :: l) d).
  rewrite <- IH by discriminate.
  replace (length (x :: y :: l) - 1)%nat with (S (length (y :: l) - 1))
    by (cbn [length]; lia).
  reflexivity.
Qed.

(** X9.  With the six properties registered and the point cloud object
    in place (or no frame waiting, so that the object is not asked for),
    a tick asks for the next call in 0.0025 s, takes at most the frame at
    the head of the queue, leaves the log ring as it is and leaves the UI
    list equal to the ring, with the active index on the newest entry (0
    for an empty ring). *)
Theorem tick_mirrors_log :
  forall (log1p : spec_float -> spec_float) (w : World)
         (n : Z) (sx sy sz : spec_float) (items : list string) (index : Z),
    scene w = Some (scene_of n sx sy sz items index) ->
    (frame_queue w = [] \/ exists vertices, point_cloud w = Some vertices) ->
    fst (update_point_cloud log1p w) = Ok NEXT_DELAY
    /\ frame_queue (snd (update_point_cloud log1p w)) = tl (frame_queue w)
    /\ log_messages (snd (update_point_cloud log1p w)) = log_messages w
    /\ scene (snd (update_point_cloud log1p w))
       = Some (scene_of n sx sy sz (log_messages w)
                 (Z.max 0 (Z.of_nat (length (log_messages w)) - 1)))
    /\ nth_error (log_messages w)
         (Z.to_nat (Z.max 0 (Z.of_nat (length (log_messages w)) - 1)))
       = match log_messages w with
         | [] => None
         | _ => Some (last (log_messages w) EmptyString)
         end.
Proof.
  intros log1p w n sx sy sz items index Hscn Hobj.
  assert (Hidx : nth_error (log_messages w)
                   (Z.to_nat (Z.max 0 (Z.of_nat (length (log_messages w)) - 1)))
                 = match log_messages w with
                   | [] => None
                   | _ => Some (last (log_messages w) EmptyString)
                   end).
  { destruct (log_messages w) as [|e log] eqn:Hlog; [reflexivity|].
    rewrite <- (@nth_error_last _ (e :: log) EmptyString) by discriminate.
    f_equal. cbn [length]. lia. }
  unfold update_point_cloud, render_frame, create_or_get_point_cloud_obj,
    getattr_default, getattr, sync_logs_to_scene, update_fps, scene_of in *.
  destruct (frame_queue w) as [|depth_map rest] eqn:Hq; simpl.
  - rewrite Hscn. simpl. rewrite Hq. auto.
  - destruct Hobj as [Hempty|[vertices Hpc]]; [discriminate|].
    rewrite Hpc. simpl. rewrite Hscn. simpl.
    destruct (F64.leb _ _); simpl; rewrite Hscn; simpl; auto.
Qed.

Lemma tick_mirrors_log_witness :
  let w := set_frame_queue [far_frame]
             (set_point_cloud (Some [])
                (do_add_log "Kinect server started."
                   (initial_world (Some registered_scene) "12:00:00" (F64.of_Z 0)))) in
  fst (update_point_cloud log1p_linear w) = Ok NEXT_DELAY
  /\ frame_queue (snd (update_point_cloud log1p_linear w)) = tl (frame_queue w)
  /\ log_messages (snd (update_point_cloud log1p_linear w)) = log_messages w
  /\ scene (snd (update_point_cloud log1p_linear w))
     = Some (scene_of 1 (F64.literal 5 1) (F64.literal 5 1) (F64.of_Z 1) (log_messages w)
               (Z.max 0 (Z.of_nat (length (log_messages w)) - 1)))
  /\ nth_error (log_messages w)
       (Z.to_nat (Z.max 0 (Z.of_nat (length (log_messages w)) - 1)))
     = match log_messages w with
       | [] => None
       | _ => Some (last (log_messages w) EmptyString)
       end.
Proof.
  intros w.
  apply (@tick_mirrors_log log1p_linear w 1 (F64.literal 5 1) (F64.literal 5 1)
           (F64.of_Z 1) [] 0).
  - reflexivity.
  - right. exists []. reflexivity.
Defined.

(** X10.  A tick that finds the queue empty touches nothing but the scene:
    mesh, counters, queue and log ring are as before, whether the log view
    could be refreshed or not; and when the context has no scene, the tick
    does nothing at all and still asks for the next call. *)
Theorem idle_tick_touches_scene_only :
  forall (log1p : spec_float -> spec_float) (w v : World),
    frame_queue w = [] ->
    frame_queue v = [] ->
    scene v = None ->
    snd (update_point_cloud log1p w)
    = set_scene (scene (snd (update_point_cloud log1p w))) w
    /\ update_point_cloud log1p v = (Ok NEXT_DELAY, v).
Proof.
  intros log1p w v Hw Hv Hnone. split.
  - unfold update_point_cloud, sync_logs_to_scene. rewrite Hw. simpl.
    destruct (scene w) as [scn|] eqn:Hscn; simpl.
    + destruct (kinect_log_items scn); simpl;
        [destruct (kinect_log_active_index scn); simpl|];
        try (destruct w; simpl in *; subst; reflexivity).
    + destruct w; simpl in *; subst; reflexivity.
  - unfold update_point_cloud, sync_logs_to_scene. rewrite Hv. simpl.
    rewrite Hnone. reflexivity.
Qed.

Lemma idle_tick_touches_scene_only_witness :
  let w := initial_world (Some registered_scene) "12:00:00" (F64.of_Z 0) in
  let v := initial_world None "12:00:00" (F64.of_Z 0) in
  snd (update_point_cloud log1p_linear w)
  = set_scene (scene (snd (update_point_cloud log1p_linear w))) w
  /\ update_point_cloud log1p_linear v = (Ok NEXT_DELAY, v).
Proof.
  intros w v.
  apply (@idle_tick_touches_scene_only log1p_linear w v).
  - reflexivity.
  - reflexivity.
  - reflexivity.
Defined.



(** ** Start, Stop and deactivation *)

Lemma not_alive_after_filter (thread : nat) (alive : list nat) :
  existsb (Nat.eqb thread) (filter (fun t => negb (Nat.eqb thread t)) alive) = false.
Proof.
  induction alive as [|t alive IH]; [reflexivity|].
  simpl. destruct (Nat.eqb thread t) eqn:Heq; simpl; [exact IH|].
  rewrite Heq. exact IH.
Qed.

(** X12.  Start, Stop, Start again, from a state with no thread alive: Stop
    reports "Kinect server stopped.", sets the stop signal, removes the
    timer, clears the handle and leaves the queue alone; the second Start
    clears the signal, registers the timer and starts a new worker.  When
    the worker did not end within the two seconds of the join, it is still
    alive after Stop, and after the second Start two workers are alive. *)
Theorem start_stop_start :
  forall (exited : bool) (w : World),
    alive_threads w = [] ->
    let w1 := snd (WM_OT_StartKinectServer_execute w) in
    let w2 := snd (WM_OT_StopKinectServer_execute exited w1) in
    let w3 := snd (WM_OT_StartKinectServer_execute w2) in
    (fst (WM_OT_StopKinectServer_execute exited w1) = (INFO, "Kinect server stopped."%string)
     /\ server_thread w2 = None
     /\ stop_event w2 = true
     /\ timer_registered w2 = false
     /\ alive_threads w2 = (if exited then [] else [threads_started w])
     /\ frame_queue w2 = frame_queue w)
    /\ (fst (WM_OT_StartKinectServer_execute w2) = (INFO, "Kinect server started."%string)
        /\ server_thread w3 = Some (S (threads_started w))
        /\ stop_event w3 = false
        /\ timer_registered w3 = true
        /\ alive_threads w3
           = S (threads_started w) :: (if exited then [] else [threads_started w])).
Proof.
  intros exited w Hnone w1 w2 w3.
  assert (Hfirst : no_live_worker w = true).
  { unfold no_live_worker, is_alive. rewrite Hnone. destruct (server_thread w); reflexivity. }
  assert (H1 : w1 = do_add_log "Kinect server started."
                      (set_timer_registered true
                         (set_threads (S (threads_started w)) [threads_started w]
                            (set_server_thread (Some (threads_started w))
                               (set_stop_event false w))))).
  { unfold w1, WM_OT_StartKinectServer_execute. rewrite Hfirst. simpl.
    rewrite Hnone. reflexivity. }
  assert (H2 : WM_OT_StopKinectServer_execute exited w1
               = ((INFO, "Kinect server stopped."%string),
                  do_add_log "Kinect server stopped."
                    (set_server_thread None
                       (set_threads (S (threads_started w))
                          (if exited then [] else [threads_started w])
                          (set_stop_event true (set_timer_registered false w1)))))).
  { rewrite H1. unfold WM_OT_StopKinectServer_execute, is_alive. simpl.
    rewrite Nat.eqb_refl. simpl. destruct exited; reflexivity. }
  assert (H3 : WM_OT_StartKinectServer_execute w2
               = ((INFO, "Kinect server started."%string),
                  do_add_log "Kinect server started."
                    (set_timer_registered true
                       (set_threads (S (S (threads_started w)))
                          (S (threads_started w)
                             :: (if exited then [] else [threads_started w]))
                          (set_server_thread (Some (S (threads_started w)))
                             (set_stop_event false w2)))))).
  { unfold w2. rewrite H2. reflexivity. }
  unfold w3. rewrite H3. unfold w2. rewrite H2. rewrite H1. simpl.
  repeat split.
Qed.

Lemma start_stop_start_witness :
  let w := initial_world (Some registered_scene) "12:00:00" (F64.of_Z 0) in
  let w1 := snd (WM_OT_StartKinectServer_execute w) in
  let w2 := snd (WM_OT_StopKinectServer_execute false w1) in
  let w3 := snd (WM_OT_StartKinectServer_execute w2) in
  (fst (WM_OT_StopKinectServer_execute false w1) = (INFO, "Kinect server stopped."%string)
   /\ server_thread w2 = None
   /\ stop_event w2 = true
   /\ timer_registered w2 = false
   /\ alive_threads w2 = (if false then [] else [threads_started w])
   /\ frame_queue w2 = frame_queue w)
  /\ (fst (WM_OT_StartKinectServer_execute w2) = (INFO, "Kinect server started."%string)
      /\ server_thread w3 = Some (S (threads_started w))
      /\ stop_event w3 = false
      /\ timer_registered w3 = true
      /\ alive_threads w3
         = S (threads_started w) :: (if false then [] else [threads_started w])).
Proof.
  apply (@start_stop_start false
           (initial_world (Some registered_scene) "12:00:00" (F64.of_Z 0))).
  reflexivity.
Defined.

(** X13.  [unregister()] with a join that succeeds leaves no live worker
    behind the handle and no timer, and takes the six properties off the
    scene; it sets the stop signal exactly when a worker was alive and does
    not clear the handle.  With no worker alive it leaves log ring and
    queue alone; with one alive they are as the worker left them, for
    [unregister] writes to neither.  A join that times out leaves the
    worker alive behind the handle. *)
Theorem unregister_stops_worker_and_timer :
  forall (w : World) (ring : list string) (queue : Queue ndarray),
    no_live_worker (unregister true ring queue w) = true
    /\ timer_registered (unregister true ring queue w) = false
    /\ scene (unregister true ring queue w)
       = option_map (fun _ => unregistered_scene) (scene w)
    /\ stop_event (unregister true ring queue w)
       = (if no_live_worker w then stop_event w else true)
    /\ server_thread (unregister true ring queue w) = server_thread w
    /\ log_messages (unregister true ring queue w)
       = (if no_live_worker w then log_messages w else ring)
    /\ frame_queue (unregister true ring queue w)
       = (if no_live_worker w then frame_queue w else queue)
    /\ no_live_worker (unregister false ring queue w) = no_live_worker w.
Proof.
  intros w ring queue. unfold unregister, no_live_worker, is_alive.
  destruct (server_thread w) as [thread|] eqn:Hthread; simpl.
  - destruct (existsb (Nat.eqb thread) (alive_threads w)) eqn:Halive; simpl;
      destruct (timer_registered w) eqn:Htimer; simpl; rewrite ?Hthread; simpl;
      rewrite ?not_alive_after_filter, ?Halive; repeat split; auto.
  - destruct (timer_registered w) eqn:Htimer; simpl; rewrite Hthread;
      repeat split; auto.
Qed.

(** ** The numbers of the vertex *)

Lemma z_meters_sign_upto_2046 :
  forallb z_meters_sign_ok (map Z.of_nat (seq 0 2047)) = true.
Proof. vm_compute. reflexivity. Qed.

(** X14.  Line 166 never divides by zero: for every reading that passes the
    mask, 0 .. 2046, [z_meters] is a finite number other than zero.  It is
    positive up to the reading 1084 and negative from 1085 on, where the
    denominator of the formula has changed its sign. *)
Theorem z_meters_is_finite_and_changes_sign :
  forall d : Z,
    0 <= d <= 2046 ->
    exists (m : positive) (e : Z),
      z_meters d = S754_finite (1084 <? d) m e.
Proof.
  intros d Hd.
  pose proof z_meters_sign_upto_2046 as Hall.
  rewrite forallb_forall in Hall.
  assert (Hin : In d (map Z.of_nat (seq 0 2047))).
  { apply in_map_iff. exists (Z.to_nat d). split; [lia|]. apply in_seq. lia. }
  apply Hall in Hin. unfold z_meters_sign_ok in Hin.
  destruct (z_meters d) as [s|s| |s m e]; try discriminate.
  apply Bool.eqb_prop in Hin. subst s. eauto.
Qed.

Lemma z_meters_is_finite_and_changes_sign_witness :
  exists (m : positive) (e : Z), z_meters 1085 = S754_finite (1084 <? 1085) m e.
Proof.
  apply (@z_meters_is_finite_and_changes_sign 1085). lia.
Defined.

Lemma world_x_half_exact :
  forallb (fun col => holds_exactly (world_x_half col) (Qmake (320 - Z.of_nat col) 2))
          (seq 0 640) = true.
Proof. vm_compute. reflexivity. Qed.

Lemma world_y_half_exact :
  forallb (fun row => holds_exactly (world_y_half row) (Qmake (240 - Z.of_nat row) 2))
          (seq 0 480) = true.
Proof. vm_compute. reflexivity. Qed.

Lemma holds_exactly_spec (x : spec_float) (q : Q) :
  holds_exactly x q = true -> exists v, float_value x = Some v /\ (v == q)%Q.
Proof.
  unfold holds_exactly. destruct (float_value x) as [v|]; [|discriminate].
  intros H. exists v. split; [reflexivity|]. apply Qeq_bool_eq. exact H.
Qed.

(** X15.  With the scale 0.5 for x and y, the default of both the
    registration and the fallback, the plane coordinates of a vertex carry
    no rounding error: the cell at row r and column c of the 480 x 640 grid
    gets [world_x = (320 - c) / 2] and [world_y = (240 - r) / 2] exactly, so
    columns run from 160 down to -159.5 and rows from 120 down to -119.5,
    whatever the reading and the z scale. *)
Theorem plane_coordinates_are_exact :
  forall (log1p : spec_float -> spec_float) (sz : spec_float) (k : nat) (d : Z),
    (k < FRAME_HEIGHT * FRAME_WIDTH)%nat ->
    exists x z y qx qy,
      pixel_vertex log1p (F64.literal 5 1) (F64.literal 5 1) sz
        FRAME_HEIGHT FRAME_WIDTH (k, d) = (x, z, y)
      /\ float_value x = Some qx
      /\ (qx == Qmake (320 - Z.of_nat (k mod FRAME_WIDTH)) 2)%Q
      /\ float_value y = Some qy
      /\ (qy == Qmake (240 - Z.of_nat (k / FRAME_WIDTH)) 2)%Q.
Proof.
  intros log1p sz k d Hk.
  assert (Hcol : In (k mod FRAME_WIDTH)%nat (seq 0 640)).
  { apply in_seq. split; [lia|]. apply Nat.mod_upper_bound. discriminate. }
  assert (Hrow : In (k / FRAME_WIDTH)%nat (seq 0 480)).
  { apply in_seq. split; [lia|]. apply Nat.Div0.div_lt_upper_bound.
    rewrite Nat.mul_comm. exact Hk. }
  pose proof world_x_half_exact as Hx. rewrite forallb_forall in Hx.
  pose proof world_y_half_exact as Hy. rewrite forallb_forall in Hy.
  destruct (holds_exactly_spec _ _ (Hx _ Hcol)) as [qx [Hqx Hvx]].
  destruct (holds_exactly_spec _ _ (Hy _ Hrow)) as [qy [Hqy Hvy]].
  eexists _, _, _, qx, qy. split; [reflexivity|].
  repeat split; assumption.
Qed.

Lemma plane_coordinates_are_exact_witness :
  exists x z y qx qy,
    pixel_vertex log1p_linear (F64.literal 5 1) (F64.literal 5 1) (F64.of_Z 1)
      FRAME_HEIGHT FRAME_WIDTH (1283%nat, 500) = (x, z, y)
    /\ float_value x = Some qx
    /\ (qx == Qmake (320 - Z.of_nat (1283 mod FRAME_WIDTH)) 2)%Q
    /\ float_value y = Some qy
    /\ (qy == Qmake (240 - Z.of_nat (1283 / FRAME_WIDTH)) 2)%Q.
Proof.
  apply (@plane_coordinates_are_exact log1p_linear (F64.of_Z 1) 1283 500).
  apply Nat.ltb_lt. vm_compute. reflexivity.
Defined.

(** ** The text of a log entry *)

Lemma string_app_assoc (a b c : string) :
  ((a ++ b) ++ c = a ++ (b ++ c))%string.
Proof. induction a as [|x a IH]; simpl; [reflexivity|]. rewrite IH. reflexivity. Qed.

(** Stripping on the right looks at the end of the string only. *)
Lemma rstrip_app (a b : string) :
  rstrip (a ++ b)
  = match rstrip b with
    | EmptyString => rstrip a
    | b' => (a ++ b')%string
    end.
Proof.
  induction a as [|c a IH]; simpl.
  - destruct (rstrip b); reflexivity.
  - rewrite IH. destruct (rstrip b) as [|x b'] eqn:Hb; [reflexivity|].
    destruct a; reflexivity.
Qed.

(** X16.  The entry that [add_log] stores for a message of ASCII
    characters: the timestamp in brackets, one space and the message
    without its trailing white space, the leading white space of the
    message being kept; for a message that is empty or all white space the
    entry is the bracketed timestamp alone. *)
Theorem logged_entry_text :
  forall (timestamp msg : string) (log : list string),
    ascii_only msg ->
    add_log timestamp msg log
    = deque_append log_maxlen log
        match rstrip msg with
        | EmptyString => ("[" ++ timestamp ++ "]")%string
        | kept => ("[" ++ timestamp ++ "] " ++ kept)%string
        end.
Proof.
  intros timestamp msg log _. unfold add_log. f_equal.
  unfold strip, log_entry.
  change (lstrip ("[" ++ timestamp ++ "] " ++ msg))
    with ("[" ++ timestamp ++ "] " ++ msg)%string.
  replace ("[" ++ timestamp ++ "] " ++ msg)%string
    with (("[" ++ timestamp ++ "]") ++ (" " ++ msg))%string.
  2:{ simpl. f_equal. rewrite string_app_assoc. reflexivity. }
  rewrite rstrip_app.
  change (rstrip (" " ++ msg)) with
    (match rstrip msg with
     | EmptyString => EmptyString
     | t' => String " " t'
     end).
  destruct (rstrip msg) as [|x kept] eqn:Hmsg.
  - change ("[" ++ timestamp ++ "]")%string with (("[" ++ timestamp) ++ "]")%string at 1.
    rewrite rstrip_app. reflexivity.
  - simpl. f_equal. rewrite string_app_assoc. reflexivity.
Qed.

Lemma logged_entry_text_witness :
  add_log "12:00:00" "  Client connected  " []
  = deque_append log_maxlen []
      match rstrip "  Client connected  " with
      | EmptyString => ("[" ++ "12:00:00" ++ "]")%string
      | kept => ("[" ++ "12:00:00" ++ "] " ++ kept)%string
      end.
Proof.
  apply (@logged_entry_text "12:00:00" "  Client connected  " []).
  unfold ascii_only. simpl. repeat constructor.
Defined.

(** ** The ring after any number of messages *)

Lemma last_app_nonempty (A : Type) (a b : list A) (d : A) :
  b <> [] -> last (a ++ b) d = last b d.
Proof.
  intros Hb. induction a as [|x a IH]; [reflexivity|].
  simpl app. destruct (a ++ b) as [|y l] eqn:Hab.
  - destruct a; [simpl in Hab; contradiction|discriminate].
  - exact IH.
Qed.

(** X17.  After any sequence of [add_log] calls on a ring within its bound,
    the ring holds the last 10 of the old entries followed by the new ones:
    fewer than 10 only while fewer were ever logged, never more, and when
    something was added the newest entry is at the right end. *)
Theorem log_ring_keeps_the_latest :
  forall (log : list string) (msgs : list (string * string)),
    (length log <= 10)%nat ->
    add_logs msgs log = lastn 10 (log ++ entries msgs)
    /\ length (add_logs msgs log) = Nat.min 10 (length log + length msgs)
    /\ last (add_logs msgs log) EmptyString
       = last (log ++ entries msgs) EmptyString.
Proof.
  intros log msgs Hlog.
  pose proof (@add_logs_lastn msgs log Hlog) as Hring. unfold log_maxlen in Hring.
  rewrite Hring. split; [reflexivity|]. split.
  - rewrite lastn_length, length_app. unfold entries. rewrite length_map. reflexivity.
  - set (all := log ++ entries msgs). unfold lastn.
    destruct (Nat.le_gt_cases (length all) 10) as [Hle|Hgt].
    + replace (length all - 10)%nat with 0%nat by lia. reflexivity.
    + rewrite <- (firstn_skipn (length all - 10) all) at 3.
      assert (Hne : skipn (length all - 10) all <> []).
      { intros Hnil. apply (f_equal (@length string)) in Hnil.
        rewrite length_skipn in Hnil. simpl in Hnil. lia. }
      destruct (skipn (length all - 10) all) as [|e kept]; [contradiction|].
      symmetry. apply last_app_nonempty. discriminate.
Qed.

Lemma log_ring_keeps_the_latest_witness :
  let msgs := [("12:00:01", "Client connected"); ("12:00:02", "Client disconnected")]%string in
  add_logs msgs ["[12:00:00] Kinect server started."%string]
  = lastn 10 (["[12:00:00] Kinect server started."%string] ++ entries msgs)
  /\ length (add_logs msgs ["[12:00:00] Kinect server started."%string])
     = Nat.min 10 (length ["[12:00:00] Kinect server started."%string] + length msgs)
  /\ last (add_logs msgs ["[12:00:00] Kinect server started."%string]) EmptyString
     = last (["[12:00:00] Kinect server started."%string] ++ entries msgs) EmptyString.
Proof.
  intros msgs.
  apply (@log_ring_keeps_the_latest ["[12:00:00] Kinect server started."%string] msgs).
  simpl. lia.
Defined.
